(** * PokerGrid: the seeded shuffle and the pattern and scoring engine

    A shallow embedding of [src/App.tsx] (the game functions of the
    [PokerGrid] component) and of the constant tables it uses.

    - A JS array is a [list]; [a[i]] is the lookup [a !! i], which is
      [None] where JS yields [undefined].
    - [null] in the grid is [None]; a grid is a [list (option Card)].
    - Integers held in JS Numbers are [Z]; the 32-bit truncation of [| 0]
      and [<<] is written out ([ToInt32]).
    - The signals of the component form the record [Session]; every game
      function takes the session and returns the updated one, in the order
      in which the source reads and writes its signals (a signal read after
      a write yields the value written).
    - Translation, rendering, the clipboard and the delayed reset of the
      message ([setTimeout]) are outside the model. *)

From Stdlib Require Import PrimFloat.
From stdpp Require Import base list sets sorting.
From Stdlib Require Import ZArith Lia Reals Lra.

Local Open Scope Z_scope.

(** ** Cards and constant tables *)

Inductive Suit := heart | diamond | spade | club.
Inductive Rank := A | R2 | R3 | R4 | R5 | R6 | R7 | R8 | R9 | R10 | J | Q | K.
Record Card := mkCard { suit : Suit; rank : Rank }.
Inductive Pattern := flush | straight | threeOfAKind | straightFlush.

#[global] Instance Suit_eq_dec : EqDecision Suit.
Proof. solve_decision. Defined.
#[global] Instance Rank_eq_dec : EqDecision Rank.
Proof. solve_decision. Defined.
#[global] Instance Card_eq_dec : EqDecision Card.
Proof. solve_decision. Defined.
#[global] Instance Pattern_eq_dec : EqDecision Pattern.
Proof. solve_decision. Defined.

Definition SUITS : list Suit := [heart; diamond; spade; club].
Definition RANKS : list Rank := [A; R2; R3; R4; R5; R6; R7; R8; R9; R10; J; Q; K].

Definition RANK_VALUES (r : Rank) : Z :=
  match r with
  | A => 1 | R2 => 2 | R3 => 3 | R4 => 4 | R5 => 5 | R6 => 6 | R7 => 7
  | R8 => 8 | R9 => 9 | R10 => 10 | J => 11 | Q => 12 | K => 13
  end.

Definition SCORE_VALUES (p : Pattern) : Z :=
  match p with
  | flush => 50
  | straight => 100
  | threeOfAKind => 100
  | straightFlush => 200
  end.

(** The object [{ 2: 2, 3: 4, 4: 8 }], as its list of entries. *)
Definition COMBO_MULTIPLIERS : list (Z * Z) := [(2, 2); (3, 4); (4, 8)].

Definition PATTERNS : list (list nat) :=
  [ [0; 1; 2]; [3; 4; 5]; [6; 7; 8];
    [0; 3; 6]; [1; 4; 7]; [2; 5; 8];
    [0; 4; 8]; [2; 4; 6] ]%nat.

(** ** Classification of a group of cards *)

(** [cards.every(c => c.suit === cards[0].suit)]. *)
Definition isFlush (cards : list Card) : bool :=
  forallb (fun c => bool_decide (Some (suit c) = suit <$> cards !! 0%nat)) cards.

(** [cards.every(c => c.rank === cards[0].rank)]. *)
Definition isThreeOfAKind (cards : list Card) : bool :=
  forallb (fun c => bool_decide (Some (rank c) = rank <$> cards !! 0%nat)) cards.

(** [values[i] === k]: false when [values[i]] is [undefined]. *)
Definition is_value (values : list Z) (i : nat) (k : Z) : bool :=
  bool_decide (values !! i = Some k).

(** [values[i] === values[j] + 1]: false when either side is missing
    ([undefined + 1] is [NaN]). *)
Definition is_succ_of (values : list Z) (i j : nat) : bool :=
  match values !! i, values !! j with
  | Some a, Some b => bool_decide (a = b + 1)
  | _, _ => false
  end.

(** [cards.map(c => RANK_VALUES[c.rank]).sort((a, b) => a - b)]. *)
Definition sorted_values (cards : list Card) : list Z :=
  merge_sort Z.le ((fun c => RANK_VALUES (rank c)) <$> cards).

Definition isStraight (cards : list Card) : bool :=
  let values := sorted_values cards in
  if is_value values 0 1 && is_value values 1 12 && is_value values 2 13 then true
  else if is_value values 0 1 && is_value values 1 2 && is_value values 2 3 then true
  else is_succ_of values 1 0 && is_succ_of values 2 1.

Definition getPatternType (cards : list Card) : option Pattern :=
  if isStraight cards && isFlush cards then Some straightFlush
  else if isFlush cards then Some flush
  else if isStraight cards then Some straight
  else if isThreeOfAKind cards then Some threeOfAKind
  else None.

(** ** The session: the signals of the component

    A JS string is the list of its UTF-16 code units. *)

Definition JSString := list Z.

(** The text shown under the grid, before translation ([t] only formats). *)
Inductive Message :=
| msgEmpty
| msgComboClearing (count multiplier totalPoints : Z)
| msgPatternPoints (pattern : option Pattern) (points : Z)
| msgGameOver.

(** One element of [patternDetails], without its [points] field: that share
    is a rounded floating-point quotient used for display only. *)
Record PatternDetail := mkDetail {
  detail_type : option Pattern;
  basePoints : Z;
  detail_cards : list Card
}.

(** One entry of the clearing record, before it is rendered to HTML. *)
Inductive LogEntry :=
| logMultiple (count multiplierText totalPoints : Z) (details : list PatternDetail)
| logSingle (detail : option PatternDetail).

Record Session := mkSession {
  deck : list Card;
  grid : list (option Card);
  currentCard : option Card;
  score : Z;
  currentSeed : JSString;
  gameOver : bool;
  gameMessage : Message;
  gameLog : list LogEntry;
  showResultModal : bool;
  (** the [hash] variable captured by the generator held in [seededRandom] *)
  seededRandom : Z
}.

Definition setDeck (d : list Card) (st : Session) : Session :=
  mkSession d (grid st) (currentCard st) (score st) (currentSeed st) (gameOver st)
            (gameMessage st) (gameLog st) (showResultModal st) (seededRandom st).
Definition setGrid (g : list (option Card)) (st : Session) : Session :=
  mkSession (deck st) g (currentCard st) (score st) (currentSeed st) (gameOver st)
            (gameMessage st) (gameLog st) (showResultModal st) (seededRandom st).
Definition setCurrentCard (c : option Card) (st : Session) : Session :=
  mkSession (deck st) (grid st) c (score st) (currentSeed st) (gameOver st)
            (gameMessage st) (gameLog st) (showResultModal st) (seededRandom st).
Definition setScore (s : Z) (st : Session) : Session :=
  mkSession (deck st) (grid st) (currentCard st) s (currentSeed st) (gameOver st)
            (gameMessage st) (gameLog st) (showResultModal st) (seededRandom st).
Definition setCurrentSeed (s : JSString) (st : Session) : Session :=
  mkSession (deck st) (grid st) (currentCard st) (score st) s (gameOver st)
            (gameMessage st) (gameLog st) (showResultModal st) (seededRandom st).
Definition setGameOver (b : bool) (st : Session) : Session :=
  mkSession (deck st) (grid st) (currentCard st) (score st) (currentSeed st) b
            (gameMessage st) (gameLog st) (showResultModal st) (seededRandom st).
Definition setGameMessage (m : Message) (st : Session) : Session :=
  mkSession (deck st) (grid st) (currentCard st) (score st) (currentSeed st) (gameOver st)
            m (gameLog st) (showResultModal st) (seededRandom st).
Definition setGameLog (l : list LogEntry) (st : Session) : Session :=
  mkSession (deck st) (grid st) (currentCard st) (score st) (currentSeed st) (gameOver st)
            (gameMessage st) l (showResultModal st) (seededRandom st).
Definition setShowResultModal (b : bool) (st : Session) : Session :=
  mkSession (deck st) (grid st) (currentCard st) (score st) (currentSeed st) (gameOver st)
            (gameMessage st) (gameLog st) b (seededRandom st).
Definition setSeededRandom (h : Z) (st : Session) : Session :=
  mkSession (deck st) (grid st) (currentCard st) (score st) (currentSeed st) (gameOver st)
            (gameMessage st) (gameLog st) (showResultModal st) h.

(** [deck().length - (currentCard() ? 1 : 0)]. *)
Definition remainingCards (st : Session) : Z :=
  Z.of_nat (length (deck st)) - (if currentCard st is Some _ then 1 else 0).

(** ** Drawing *)

Definition drawCard (st : Session) : option Card * Session :=
  match deck st with
  | [] => (None, st)
  | _ :: _ => (last (deck st), setDeck (removelast (deck st)) st)
  end.

Definition displayCurrentCard (card : option Card) (st : Session) : Session :=
  setCurrentCard card st.

(** ** Evaluation of the eight triples *)

(** [grid()[index]], with [undefined] and [null] both read as [None]. *)
Definition cellAt (g : list (option Card)) (index : nat) : option Card :=
  mjoin (g !! index).

(** [pattern.map(index => grid()[index]).filter(Boolean)]. *)
Definition cardsOf (g : list (option Card)) (pattern : list nat) : list Card :=
  omap (cellAt g) pattern.

(** The truthiness of [getPatternType(cards)]. *)
Definition isPattern (cards : list Card) : bool :=
  bool_decide (is_Some (getPatternType cards)).

Definition validPatternsOf (g : list (option Card)) : list (list nat * list Card) :=
  filter (fun pc => (length (snd pc) =? 3)%nat && isPattern (snd pc) = true)
         ((fun pattern => (pattern, cardsOf g pattern)) <$> PATTERNS).

(** [COMBO_MULTIPLIERS[k] || 1]: a missing key is [undefined], and both
    [undefined] and [0] are falsy. *)
Definition lookupMultiplier (k : Z) : Z :=
  match snd <$> list_find (fun e => fst e = k) COMBO_MULTIPLIERS with
  | Some (_, 0) | None => 1
  | Some (_, m) => m
  end.

(** [new Set(xs)]: the distinct elements, in order of first insertion. *)
Definition new_Set (xs : list nat) : list nat :=
  foldl (fun s x => if decide (x ∈ s) then s else s ++ [x]) [] xs.

Definition addToGameLog (patternDetails : list PatternDetail) (count totalPoints : Z)
    (st : Session) : Session :=
  let logEntry :=
    if 1 <? count then
      let multiplierText := if 4 <=? count then 8 else if count =? 3 then 4 else 2 in
      logMultiple count multiplierText totalPoints patternDetails
    else logSingle (patternDetails !! 0%nat) in
  setGameLog (logEntry :: gameLog st) st.

(** [new Set(validPatterns.flatMap(({ pattern }) => pattern))]. *)
Definition cellsToRemoveOf (validPatterns : list (list nat * list Card)) : list nat :=
  new_Set (validPatterns ≫= fst).

(** The source asserts [getPatternType(cards)!]; on the lists that
    [checkPatterns] passes the type is always present, and a missing one
    counts 0 here. *)
Definition scoreOf (t : option Pattern) : Z := from_option SCORE_VALUES 0 t.

Definition processPatterns (validPatterns : list (list nat * list Card))
    (st : Session) : Session :=
  let patternsWithType :=
    (fun pc => (fst pc, getPatternType (snd pc), snd pc)) <$> validPatterns in
  let baseTotalPoints :=
    foldl (fun sum pt => sum + scoreOf (snd (fst pt))) 0 patternsWithType in
  let n := Z.of_nat (length validPatterns) in
  let multiplier := lookupMultiplier (Z.min n 4) in
  let totalPoints := baseTotalPoints * multiplier in
  let st := setScore (score st + totalPoints) st in
  let patternDetails :=
    (fun pt => mkDetail (snd (fst pt)) (scoreOf (snd (fst pt))) (snd pt))
      <$> patternsWithType in
  let st := addToGameLog patternDetails n totalPoints st in
  let st :=
    if 2 <=? n then setGameMessage (msgComboClearing n multiplier totalPoints) st
    else setGameMessage
           (msgPatternPoints (mjoin ((fun pt => snd (fst pt)) <$> patternsWithType !! 0%nat))
                             totalPoints) st in
  let cellsToRemove := cellsToRemoveOf validPatterns in
  let newGrid := foldl (fun g index => <[index := None]> g) (grid st) cellsToRemove in
  setGrid newGrid st.

Definition checkPatterns (st : Session) : Session :=
  let validPatterns := validPatternsOf (grid st) in
  if (0 <? length validPatterns)%nat then processPatterns validPatterns st else st.

(** [pattern.every(index => grid()[index]) && getPatternType(...)]: the
    cards are read only when all three cells are occupied, where mapping the
    cells and [cardsOf] agree. *)
Definition hasValidPatterns (st : Session) : bool :=
  existsb (fun pattern =>
             forallb (fun index => bool_decide (is_Some (cellAt (grid st) index))) pattern
             && isPattern (cardsOf (grid st) pattern))
          PATTERNS.

Definition checkGameOver (st : Session) : Session :=
  let gridFull := forallb (fun cell => bool_decide (cell <> None)) (grid st) in
  let cardsEmpty := (length (deck st) =? 0)%nat && negb (bool_decide (is_Some (currentCard st))) in
  if (gridFull && negb (hasValidPatterns st)) || cardsEmpty then
    setGameMessage msgGameOver (setShowResultModal true (setGameOver true st))
  else st.

(** ** Placement

    [index] is the position of one of the rendered cells, so it is below the
    length of the grid; beyond it JS would lengthen the array, which the
    list update below does not do. The statements about effective placements
    therefore take [index] inside the grid. *)
Definition placeCard (index : nat) (st : Session) : Session :=
  if bool_decide (is_Some (cellAt (grid st) index))
     || negb (bool_decide (is_Some (currentCard st)))
  then st
  else
    let st := setGrid (<[index := currentCard st]> (grid st)) st in
    let st := checkPatterns st in
    let '(nextCard, st) := drawCard st in
    let st := displayCurrentCard nextCard st in
    checkGameOver st.

(** The state of an effective placement just before the draw: the card is
    on the grid and the triples have been evaluated. *)
Definition afterEvaluation (index : nat) (st : Session) : Session :=
  checkPatterns (setGrid (<[index := currentCard st]> (grid st)) st).

(** The click handler of a grid cell:
    [!gameOver() && !card && currentCard() && placeCard(index())]. *)
Definition onClick (index : nat) (st : Session) : Session :=
  if negb (gameOver st) && negb (bool_decide (is_Some (cellAt (grid st) index)))
     && bool_decide (is_Some (currentCard st))
  then placeCard index st
  else st.

(** ** JS Numbers

    The hash, the loop index and the scores are integers and are modelled
    exactly. The generator also computes with floating-point Numbers
    ([Math.sin], a product, [Math.floor], a difference); these operations are
    taken through the interface below. [Math_floor] yields the integer that
    the integer-valued Number returned by [Math.floor] denotes, and [of_int]
    is the Number of an integer. *)

Record Number := mkNumber {
  num : Type;
  of_int : Z -> num;
  Math_sin : num -> num;
  Math_floor : num -> Z;
  mul : num -> num -> num;
  sub : num -> num -> num;
  (** [0 <= r < 1] *)
  in_unit : num -> Prop
}.

(** What the shuffle needs of the arithmetic: a Number minus its floor lies
    in [0,1), and scaling such a Number by a positive integer [n] and taking
    the floor lands in [0, n). *)
Record NumberLaws (F : Number) : Prop := mkNumberLaws {
  frac_in_unit : forall x : num F,
    in_unit F (sub F x (of_int F (Math_floor F x)));
  floor_scale : forall (r : num F) (n : Z),
    in_unit F r -> 0 < n -> 0 <= Math_floor F (mul F r (of_int F n)) < n
}.

(** The interface read over the real numbers (rounding is not modelled). *)
Definition RealNumber : Number :=
  mkNumber R IZR sin Int_part Rmult Rminus (fun r => (0 <= r < 1)%R).

(** The integers as Numbers with a sine that is constantly 0: a degenerate
    reading, under which the loop of the shuffle can be run. *)
Definition ZeroNumber : Number :=
  mkNumber Z (fun z => z) (fun _ => 0) (fun z => z) Z.mul Z.sub (fun r => r = 0).

(** ** The seeded generator *)

Definition ToInt32 (z : Z) : Z := (z + 2 ^ 31) mod 2 ^ 32 - 2 ^ 31.

(** [a << k] for [0 <= k < 32]. *)
Definition shl (a k : Z) : Z := ToInt32 (Z.shiftl (ToInt32 a) k).

Definition isLeadSurrogate (u : Z) : bool := (0xD800 <=? u) && (u <=? 0xDBFF).
Definition isTrailSurrogate (u : Z) : bool := (0xDC00 <=? u) && (u <=? 0xDFFF).

(** [Array.from(seed)]: the string split at code points, a surrogate pair
    forming one element. *)
Fixpoint Array_from (seed : JSString) : list JSString :=
  match seed with
  | [] => []
  | u :: rest =>
      match rest with
      | v :: rest' =>
          if isLeadSurrogate u && isTrailSurrogate v
          then [u; v] :: Array_from rest'
          else [u] :: Array_from rest
      | [] => [[u]]
      end
  end.

(** [char.charCodeAt(0)]; the elements of [Array_from] are never empty. *)
Definition charCodeAt0 (char : JSString) : Z :=
  match char with
  | [] => 0
  | u :: _ => u
  end.

(** The initial value of [hash] in the closure that
    [createSeededRandom(seed)] returns. *)
Definition createSeededRandom (seed : JSString) : Z :=
  foldl (fun acc char => ToInt32 (shl acc 5 - acc + charCodeAt0 char)) 0 (Array_from seed).

(** The nested loops over [SUITS] and [RANKS], pushing one card each. *)
Definition createDeck : list Card :=
  SUITS ≫= (fun suit => (fun rank => mkCard suit rank) <$> RANKS).

(** [[shuffled[i], shuffled[j]] = [shuffled[j], shuffled[i]]]. Under
    [NumberLaws] the index [j] lies in [[0, i]]; outside the array JS would
    store [undefined], and the list is left as it is here. *)
Definition swap (shuffled : list Card) (i : nat) (j : Z) : list Card :=
  if 0 <=? j then
    match shuffled !! i, shuffled !! Z.to_nat j with
    | Some x, Some y => <[Z.to_nat j := x]> (<[i := y]> shuffled)
    | _, _ => shuffled
    end
  else shuffled.

Section Shuffle.
Variable F : Number.

(** One call of the closure: [Math.sin(hash++) * 10000], minus its floor.
    The increment is a Number addition and does not wrap. *)
Definition generator (hash : Z) : num F * Z :=
  let x := mul F (Math_sin F (of_int F hash)) (of_int F 10000) in
  (sub F x (of_int F (Math_floor F x)), hash + 1).

(** The loop [for (let i = shuffled.length - 1; i > 0; i--)], entered with
    the current [i]. *)
Fixpoint shuffleLoop (i : nat) (shuffled : list Card) (hash : Z) : list Card * Z :=
  match i with
  | O => (shuffled, hash)
  | S i' =>
      let '(r, hash) := generator hash in
      let j := Math_floor F (mul F r (of_int F (Z.of_nat i + 1))) in
      shuffleLoop i' (swap shuffled i j) hash
  end.

Definition shuffleDeck (deck : list Card) (st : Session) : list Card * Session :=
  let '(shuffled, hash) := shuffleLoop (length deck - 1) deck (seededRandom st) in
  (shuffled, setSeededRandom hash st).

(** [startGame(seed)]; [uuid] is what [crypto.randomUUID()] returns when
    it is called, that is when [seed] is absent or empty. *)
Definition startGame (seed : option JSString) (uuid : JSString) (st : Session) : Session :=
  let newSeed :=
    match seed with
    | Some (u :: s) => u :: s
    | Some [] | None => uuid
    end in
  let st := setCurrentSeed newSeed st in
  let st := setSeededRandom (createSeededRandom newSeed) st in
  let st := setGrid (replicate 9 None) st in
  let st := setScore 0 st in
  let st := setGameOver false st in
  let st := setGameMessage msgEmpty st in
  let st := setShowResultModal false st in
  let st := setGameLog [] st in
  let '(newDeck, st) := shuffleDeck createDeck st in
  let st := setDeck newDeck st in
  let '(firstCard, st) := drawCard st in
  displayCurrentCard firstCard st.

(** *** The generator and the shuffle as the specification words them *)

(** "takes sin(hash) x 10000, and returns the fractional part (subtracts
    the floor)", for a given value of the hash. *)
Definition sinFraction (hash : Z) : num F :=
  let x := mul F (Math_sin F (of_int F hash)) (of_int F 10000) in
  sub F x (of_int F (Math_floor F x)).

(** "swap index j = floor(generator() x (i+1))", for a given output. *)
Definition swapIndex (r : num F) (i : nat) : Z :=
  Math_floor F (mul F r (of_int F (Z.of_nat i + 1))).


(** The first [n] outputs of a generator started at [hash], and the hash
    it is left with. *)
Fixpoint outputs (gen : Z -> num F * Z) (n : nat) (hash : Z) : list (num F) * Z :=
  match n with
  | O => ([], hash)
  | S n' =>
      let '(r, hash) := gen hash in
      let '(rs, hash) := outputs gen n' hash in
      (r :: rs, hash)
  end.

(** "increments the hash, takes sin(hash) x 10000, and returns the
    fractional part". *)
Definition spec_generator (hash : Z) : num F * Z :=
  let hash := hash + 1 in
  (sinFraction hash, hash).

End Shuffle.

(** The session that a game started from [seed] begins with, written as a
    function of the seed alone. *)
Definition sessionOfSeed (F : Number) (seed : JSString) : Session :=
  let shuffled := fst (shuffleLoop F 51 createDeck (createSeededRandom seed)) in
  mkSession (removelast shuffled) (replicate 9 None) (last shuffled) 0 seed
            false msgEmpty [] false (createSeededRandom seed + 51).

(** "hash = ((hash<<5) - hash + charCode) truncated to 32 bits". *)
Definition spec_hash_step (hash charCode : Z) : Z :=
  ToInt32 (Z.shiftl hash 5 - hash + charCode).

(** ** Concrete values *)

Definition emptyGrid : list (option Card) := replicate 9 None.

Definition sampleSession (d : list Card) (g : list (option Card)) (c : option Card) : Session :=
  mkSession d g c 0 [] false msgEmpty [] false 0.

(** The code units of "test1". *)
Definition seed_test1 : JSString := [116; 101; 115; 116; 49].

(** ** The classes of a triple as the specification words them *)

Definition sameSuit (cards : list Card) : Prop :=
  forall c c', c ∈ cards -> c' ∈ cards -> suit c = suit c'.

Definition sameRank (cards : list Card) : Prop :=
  forall c c', c ∈ cards -> c' ∈ cards -> rank c = rank c'.

(** "consecutive ranks (by numeric value) after sorting ascending, with two
    wrap exceptions": [v0 <= v1 <= v2] is the ascending arrangement of the
    three values. *)
Definition straightValues (cards : list Card) : Prop :=
  exists v0 v1 v2 : Z,
    [v0; v1; v2] ≡ₚ (fun c => RANK_VALUES (rank c)) <$> cards /\
    v0 <= v1 /\ v1 <= v2 /\
    ((v1 = v0 + 1 /\ v2 = v1 + 1) \/
     (v0 = 1 /\ v1 = 12 /\ v2 = 13) \/
     (v0 = 1 /\ v1 = 2 /\ v2 = 3)).


(** ** An evaluation pass as the specification words it *)

(** "a triple is a candidate only if all 3 cells are occupied". *)
Definition fullyOccupied (g : list (option Card)) (pattern : list nat) : Prop :=
  Forall (fun index => is_Some (cellAt g index)) pattern.

#[global] Instance fullyOccupied_dec g pattern : Decision (fullyOccupied g pattern).
Proof. unfold fullyOccupied. apply _. Defined.

(** The matches of a pass: the candidates that have a class, with it. *)
Definition matches (g : list (option Card)) : list (list nat * Pattern) :=
  omap (fun pattern =>
          if decide (fullyOccupied g pattern)
          then (fun t => (pattern, t)) <$> getPatternType (cardsOf g pattern)
          else None)
       PATTERNS.

Definition sumZ (l : list Z) : Z := foldr Z.add 0 l.

(** "N=1 -> x1, N=2 -> x2, N=3 -> x4, N=4 (or more) -> x8". *)
Definition comboMultiplier (n : nat) : Z :=
  match n with
  | 0%nat | 1%nat => 1
  | 2%nat => 2
  | 3%nat => 4
  | _ => 8
  end.

(** "Total points = (sum of base points of all matched patterns) x
    multiplier". *)
Definition totalPointsOf (g : list (option Card)) : Z :=
  sumZ ((fun m => SCORE_VALUES (snd m)) <$> matches g) * comboMultiplier (length (matches g)).

(** "the union of all cell indices belonging to any matched triple". *)
Definition inMatchedTriple (g : list (option Card)) (index : nat) : Prop :=
  exists m, m ∈ matches g /\ index ∈ fst m.

(** A grid in which placing the five of diamonds in the middle completes the
    middle row (4,5,6) and the middle column (5,5,5) at once. *)
Definition comboSession : Session :=
  sampleSession [mkCard club R9]
    [Some (mkCard heart A); Some (mkCard spade R5); Some (mkCard diamond R7);
     Some (mkCard club R4); None; Some (mkCard spade R6);
     Some (mkCard heart R3); Some (mkCard heart R5); Some (mkCard club R9)]
    (Some (mkCard diamond R5)).

(** ** The end of the game as the specification words it *)

(** "grid is completely full". *)
Definition gridFull (g : list (option Card)) : Prop := Forall (fun cell => cell <> None) g.

(** "(grid is completely full AND no triple among the 8 currently yields a
    valid pattern) OR (deck is empty AND no current card is held)". *)
Definition gameOverCondition (st : Session) : Prop :=
  (gridFull (grid st) /\ matches (grid st) = []) \/
  (deck st = [] /\ currentCard st = None).

(** A session with one card left in the deck, one in hand and a free cell. *)
Definition lastDrawSession : Session :=
  sampleSession [mkCard club R9]
    [Some (mkCard heart A); Some (mkCard spade R5); None;
     None; None; None; None; None; None]
    (Some (mkCard diamond K)).

(** A full grid without any matching triple once the last cell is taken. *)
Definition deadEndSession : Session :=
  sampleSession [mkCard club R9; mkCard club R8]
    [Some (mkCard heart A); Some (mkCard spade R5); Some (mkCard diamond R9);
     Some (mkCard club R7); Some (mkCard heart J); Some (mkCard spade R3);
     Some (mkCard diamond R6); Some (mkCard club K); None]
    (Some (mkCard spade R2)).

(** Two hearts in the first row, the third one in hand. *)
Definition straightFlushSession : Session :=
  sampleSession [mkCard club R9; mkCard club R8]
    [Some (mkCard heart R7); Some (mkCard heart R9); None;
     None; None; None; None; None; None]
    (Some (mkCard heart R8)).

(** A session whose deck is used up while a card is still in hand. *)
Definition exhaustedSession : Session :=
  sampleSession []
    [Some (mkCard heart A); Some (mkCard spade R5); None;
     None; None; None; None; None; None]
    (Some (mkCard diamond K)).

(** ** Where the cards are *)

Definition cardsOnGrid (g : list (option Card)) : list Card := omap (fun cell => cell) g.

Definition inHand (st : Session) : list Card := option_list (currentCard st).

Definition cardsInPlay (st : Session) : list Card :=
  deck st ++ inHand st ++ cardsOnGrid (grid st).

(** The cards removed from play: those of the 52 that are neither in the
    deck, nor in hand, nor on the grid. *)
Definition cleared (st : Session) : list Card :=
  filter (fun c => c ∉ cardsInPlay st) createDeck.

(** No card is in two places, and the grid has its nine cells. *)
Definition conserved (st : Session) : Prop :=
  length (grid st) = 9%nat /\ NoDup (cardsInPlay st).

Definition exactlyOne (P1 P2 P3 P4 : Prop) : Prop :=
  (P1 /\ ~ P2 /\ ~ P3 /\ ~ P4) \/ (~ P1 /\ P2 /\ ~ P3 /\ ~ P4) \/
  (~ P1 /\ ~ P2 /\ P3 /\ ~ P4) \/ (~ P1 /\ ~ P2 /\ ~ P3 /\ P4).

(** A series of clicks on cells of the grid. *)
Definition clicks (indices : list nat) (st : Session) : Session :=
  foldl (fun st index => onClick index st) st indices.

(** Once the game is over, the grid is full or the hand is empty. *)
Definition settled (st : Session) : Prop :=
  length (grid st) = 9%nat /\
  (gameOver st = true -> gridFull (grid st) \/ currentCard st = None).

(** ** The card counter *)

(** [shouldHideCard(suit, rank)]: [currentCard()?.suit] and [c?.suit] are
    [undefined] for [null], which equals no suit. *)
Definition shouldHideCard (s : Suit) (r : Rank) (st : Session) : bool :=
  let inDeck :=
    existsb (fun c => bool_decide (suit c = s) && bool_decide (rank c = r)) (deck st) in
  let isCurrentCard :=
    bool_decide (suit <$> currentCard st = Some s)
    && bool_decide (rank <$> currentCard st = Some r) in
  let isOnGrid :=
    existsb (fun c : option Card =>
               bool_decide (suit <$> c = Some s) && bool_decide (rank <$> c = Some r))
            (grid st) in
  negb inDeck || isCurrentCard || isOnGrid.

(** The cells that [CardCounter] renders below its header row, in order:
    for each rank from A down to 2 the spade, heart, club and diamond, each
    with the flag that blanks it. *)
Definition CardCounter (st : Session) : list (Suit * Rank * bool) :=
  [A; K; Q; J; R10; R9; R8; R7; R6; R5; R4; R3; R2] ≫= (fun r =>
    (fun s => (s, r, shouldHideCard s r st)) <$> [spade; heart; club; diamond]).

(** ** The buttons that start a game *)

Section Handlers.
Variable F : Number.

(** Restart: [startGame(currentSeed())]. *)
Definition restart (uuid : JSString) (st : Session) : Session :=
  startGame F (Some (currentSeed st)) uuid st.

(** Start with the typed seed: [seedInput() && startGame(seedInput())]. *)
Definition startFromInput (seedInput uuid : JSString) (st : Session) : Session :=
  match seedInput with
  | [] => st
  | _ :: _ => startGame F (Some seedInput) uuid st
  end.

(** On mount: [startGame(seedParam || undefined)], [seedParam] being the
    [seed] parameter of the URL or [null]. *)
Definition onMount (seedParam : option JSString) (uuid : JSString) (st : Session) : Session :=
  startGame F
    match seedParam with
    | Some (u :: s) => Some (u :: s)
    | Some [] | None => None
    end
    uuid st.
End Handlers.

(** ** Accounting *)

(** The cards not yet placed: those in the deck and the one in hand. *)
Definition cardsLeft (st : Session) : nat := (length (deck st) + length (inHand st))%nat.

(** Whether the click handler passes a click on to [placeCard]. *)
Definition accepts (index : nat) (st : Session) : bool :=
  negb (gameOver st) && negb (bool_decide (is_Some (cellAt (grid st) index)))
  && bool_decide (is_Some (currentCard st)).

(** The number of clicks of a series that are passed on. *)
Fixpoint accepted (indices : list nat) (st : Session) : nat :=
  match indices with
  | [] => 0
  | index :: rest =>
      ((if accepts index st then 1 else 0) + accepted rest (onClick index st))%nat
  end.

(** The points that an entry of the clearing record stands for: the total of
    a combined entry, the base points of a single one. *)
Definition entryPoints (e : LogEntry) : Z :=
  match e with
  | logMultiple _ _ totalPoints _ => totalPoints
  | logSingle (Some d) => basePoints d
  | logSingle None => 0
  end.

(** An entry whose printed figures agree with each other. *)
Definition entryConsistent (e : LogEntry) : Prop :=
  match e with
  | logMultiple count multiplierText totalPoints details =>
      2 <= count /\ count = Z.of_nat (length details) /\
      multiplierText = comboMultiplier (length details) /\
      totalPoints = sumZ (basePoints <$> details) * multiplierText
  | logSingle d => is_Some d
  end.

(** The sessions without a match on the grid. *)
Definition quiet (st : Session) : Prop := matches (grid st) = [].

(** While the game is not over a card is in hand and a cell is free. *)
Definition playable (st : Session) : Prop :=
  gameOver st = false -> is_Some (currentCard st) /\ ~ gridFull (grid st).

(** What holds of every session reached by play. *)
Definition inPlay (st : Session) : Prop :=
  length (grid st) = 9%nat /\ quiet st /\ playable st.

(** The score agrees with the clearing record, whose entries are
    consistent. *)
Definition recorded (st : Session) : Prop :=
  score st = sumZ (entryPoints <$> gameLog st) /\ 0 <= score st /\ (50 | score st) /\
  Forall entryConsistent (gameLog st).


(** * Properties *)

#[global] Arguments matches : simpl never.
#[global] Arguments validPatternsOf : simpl never.
#[global] Arguments hasValidPatterns : simpl never.

(** ** Concrete runs *)

Example getPatternType_examples :
  getPatternType [mkCard heart Q; mkCard heart A; mkCard heart K] = Some straightFlush /\
  getPatternType [mkCard heart Q; mkCard heart A; mkCard heart R2] = Some flush /\
  getPatternType [mkCard heart R3; mkCard club A; mkCard heart R2] = Some straight /\
  getPatternType [mkCard heart R3; mkCard club R3; mkCard spade R3] = Some threeOfAKind /\
  getPatternType [mkCard heart K; mkCard club A; mkCard spade R2] = None /\
  getPatternType [mkCard heart K; mkCard club A] = None.
Proof. repeat split. Qed.

(** Three cards of one suit in a row that form a straight: 200 points, and
    the cells 0, 1, 2 are emptied. *)
Example straightFlush_run :
  let st := placeCard 2 straightFlushSession in
  score st = 200 /\ grid st = emptyGrid /\
  currentCard st = Some (mkCard club R8) /\ deck st = [mkCard club R9] /\
  gameOver st = false.
Proof. repeat split. Qed.

(** A grid filled without any matching triple ends the game. *)
Example deadEnd_run :
  let st := placeCard 8 deadEndSession in
  gameOver st = true /\ score st = 0 /\ showResultModal st = true /\
  gameMessage st = msgGameOver.
Proof. repeat split. Qed.

(** Two triples at once: (100 + 100) x 2. *)
Example combo_run :
  let st := placeCard 4 comboSession in
  score st = 400 /\ gameMessage st = msgComboClearing 2 2 400 /\
  cellAt (grid st) <$> [1; 3; 4; 5; 7]%nat = [None; None; None; None; None] /\
  cellAt (grid st) 0 = Some (mkCard heart A).
Proof. repeat split. Qed.

(** The hash of "test1", of the empty seed, of a seed made of one surrogate
    pair (only the lead unit is read) and of "pokergrid" (which wraps). *)
Example createSeededRandom_examples :
  createSeededRandom seed_test1 = 110251487 /\
  createSeededRandom [] = 0 /\
  createSeededRandom [0xD83D; 0xDE00] = 0xD83D /\
  createSeededRandom [112; 111; 107; 101; 114; 103; 114; 105; 100] = -1214364993.
Proof. repeat split. Qed.

(** The backward pass on four cards when every output of the generator is
    0: position 3, then 2, then 1 is exchanged with position 0, and the
    generator has been called three times. *)
Example shuffleLoop_run :
  shuffleLoop ZeroNumber 3
    [mkCard heart A; mkCard heart R2; mkCard heart R3; mkCard heart R4] 7
  = ([mkCard heart R2; mkCard heart R3; mkCard heart R4; mkCard heart A], 10).
Proof. reflexivity. Qed.

Example createDeck_run :
  length createDeck = 52%nat /\
  createDeck !! 0%nat = Some (mkCard heart A) /\
  createDeck !! 13%nat = Some (mkCard diamond A) /\
  last createDeck = Some (mkCard club K).
Proof. repeat split. Qed.

(** ** Classification *)

Lemma isFlush_sameSuit (c1 c2 c3 : Card) :
  isFlush [c1; c2; c3] = true <-> sameSuit [c1; c2; c3].
Proof.
  unfold isFlush, sameSuit; cbn [forallb lookup list_lookup fmap option_fmap option_map].
  rewrite !andb_true_iff, !bool_decide_eq_true. split.
  - intros (_ & H2 & H3 & _) c c' Hc Hc'.
    assert (E2 : suit c2 = suit c1) by congruence.
    assert (E3 : suit c3 = suit c1) by congruence.
    set_unfold. destruct Hc as [->|[->|[->|[]]]], Hc' as [->|[->|[->|[]]]]; congruence.
  - intros H. repeat split; try done; f_equal; apply H; set_solver.
Qed.

Lemma isThreeOfAKind_sameRank (c1 c2 c3 : Card) :
  isThreeOfAKind [c1; c2; c3] = true <-> sameRank [c1; c2; c3].
Proof.
  unfold isThreeOfAKind, sameRank; cbn [forallb lookup list_lookup fmap option_fmap option_map].
  rewrite !andb_true_iff, !bool_decide_eq_true. split.
  - intros (_ & H2 & H3 & _) c c' Hc Hc'.
    assert (E2 : rank c2 = rank c1) by congruence.
    assert (E3 : rank c3 = rank c1) by congruence.
    set_unfold. destruct Hc as [->|[->|[->|[]]]], Hc' as [->|[->|[->|[]]]]; congruence.
  - intros H. repeat split; try done; f_equal; apply H; set_solver.
Qed.

(** The sorted values of a triple are its three values in ascending order. *)
Lemma sorted_values_triple (cards : list Card) :
  length cards = 3%nat ->
  exists a b c : Z,
    sorted_values cards = [a; b; c] /\ a <= b /\ b <= c /\
    [a; b; c] ≡ₚ (fun c => RANK_VALUES (rank c)) <$> cards.
Proof.
  intros Hlen. unfold sorted_values.
  set (vs := (fun c => RANK_VALUES (rank c)) <$> cards).
  pose proof (merge_sort_Permutation Z.le vs) as HP.
  pose proof (Sorted_merge_sort Z.le vs) as HS.
  assert (Hl : length (merge_sort Z.le vs) = 3%nat).
  { rewrite HP. unfold vs. rewrite length_fmap. exact Hlen. }
  destruct (merge_sort Z.le vs) as [|a [|b [|c [|? ?]]]]; try discriminate.
  exists a, b, c. split; [reflexivity|].
  inversion HS as [|? ? HS1 Hab]; subst. inversion Hab; subst.
  inversion HS1 as [|? ? HS2 Hbc]; subst. inversion Hbc; subst.
  repeat split; auto.
Qed.

Lemma isStraight_sorted (cards : list Card) (a b c : Z) :
  sorted_values cards = [a; b; c] ->
  isStraight cards = true <->
  ((b = a + 1 /\ c = b + 1) \/ (a = 1 /\ b = 12 /\ c = 13) \/ (a = 1 /\ b = 2 /\ c = 3)).
Proof.
  intros E. unfold isStraight, is_value, is_succ_of. rewrite E.
  cbn [lookup list_lookup].
  repeat case_bool_decide; simplify_eq; cbn; split; intros; try done; try lia;
    exfalso; destruct_or?; destruct_and?; simplify_eq; congruence || lia.
Qed.

Lemma isStraight_straightValues (cards : list Card) :
  length cards = 3%nat ->
  isStraight cards = true <-> straightValues cards.
Proof.
  intros Hlen.
  destruct (sorted_values_triple cards Hlen) as (a & b & c & E & Hab & Hbc & HP).
  rewrite (isStraight_sorted cards a b c E). split.
  - intros H. exists a, b, c. auto.
  - intros (v0 & v1 & v2 & HP' & H01 & H12 & H).
    assert (Heq : [v0; v1; v2] = [a; b; c]).
    { apply (Sorted_unique Z.le).
      - repeat constructor; auto.
      - repeat constructor; auto.
      - rewrite HP, HP'. reflexivity. }
    simplify_eq. exact H.
Qed.

Lemma getPatternType_cases (cards : list Card) :
  getPatternType cards =
    match isFlush cards, isStraight cards, isThreeOfAKind cards with
    | true, true, _ => Some straightFlush
    | true, false, _ => Some flush
    | false, true, _ => Some straight
    | false, false, true => Some threeOfAKind
    | false, false, false => None
    end.
Proof.
  unfold getPatternType.
  destruct (isFlush cards), (isStraight cards), (isThreeOfAKind cards); reflexivity.
Qed.

(** C3. The class of a full triple is decided in the order straightFlush,
    flush, straight, threeOfAKind: a triple of one suit whose values form a
    straight is a straightFlush (so neither a flush nor a straight), a flush
    is a one-suit triple that is no straight, a straight is a straight of
    mixed suits, threeOfAKind is reached only when the two tests before it
    fail, and a triple in none of the classes has no pattern. *)
Theorem getPatternType_priority (c1 c2 c3 : Card) :
  let cards := [c1; c2; c3] in
  (getPatternType cards = Some straightFlush <-> sameSuit cards /\ straightValues cards) /\
  (getPatternType cards = Some flush <-> sameSuit cards /\ ~ straightValues cards) /\
  (getPatternType cards = Some straight <-> straightValues cards /\ ~ sameSuit cards) /\
  (getPatternType cards = Some threeOfAKind <->
     sameRank cards /\ ~ sameSuit cards /\ ~ straightValues cards) /\
  (getPatternType cards = None <->
     ~ sameSuit cards /\ ~ straightValues cards /\ ~ sameRank cards).
Proof.
  intros cards. subst cards.
  rewrite <- isFlush_sameSuit, <- isThreeOfAKind_sameRank.
  rewrite <- (isStraight_straightValues [c1; c2; c3]) by reflexivity.
  rewrite getPatternType_cases.
  destruct (isFlush _), (isStraight _), (isThreeOfAKind _);
    repeat split; intros; destruct_and?; try done; try congruence; auto.
Qed.

Lemma values_of_ranks (cards : list Card) (ranks : list Rank) :
  rank <$> cards ≡ₚ ranks ->
  (fun c => RANK_VALUES (rank c)) <$> cards ≡ₚ RANK_VALUES <$> ranks.
Proof.
  intros H. rewrite <- H, <- list_fmap_compose. reflexivity.
Qed.

Lemma length_of_ranks (cards : list Card) (ranks : list Rank) :
  rank <$> cards ≡ₚ ranks -> length cards = length ranks.
Proof.
  intros H. rewrite <- H, length_fmap. reflexivity.
Qed.

(** C4. For three cards the straight test holds exactly when the three
    values in ascending order are consecutive or are 1,12,13 or 1,2,3; so the
    ranks A,K,Q and A,2,3, in any order and of any suits, pass the test, and
    A,J,Q do not. *)
Theorem isStraight_spec (c1 c2 c3 : Card) (cards : list Card) :
  (isStraight [c1; c2; c3] = true <-> straightValues [c1; c2; c3]) /\
  (rank <$> cards ≡ₚ [A; K; Q] -> isStraight cards = true) /\
  (rank <$> cards ≡ₚ [A; R2; R3] -> isStraight cards = true) /\
  (rank <$> cards ≡ₚ [A; J; Q] -> isStraight cards = false).
Proof.
  split; [apply isStraight_straightValues; reflexivity|].
  split; [|split]; intros HP.
  - apply isStraight_straightValues; [exact (length_of_ranks _ _ HP)|].
    exists 1, 12, 13. rewrite (values_of_ranks _ _ HP). cbn.
    split; [apply Permutation_skip, Permutation_swap|]. lia.
  - apply isStraight_straightValues; [exact (length_of_ranks _ _ HP)|].
    exists 1, 2, 3. rewrite (values_of_ranks _ _ HP). cbn.
    split; [reflexivity|]. lia.
  - apply not_true_is_false. intros Hs.
    apply isStraight_straightValues in Hs; [|exact (length_of_ranks _ _ HP)].
    destruct Hs as (v0 & v1 & v2 & HP' & H01 & H12 & H).
    rewrite (values_of_ranks _ _ HP) in HP'. cbn in HP'.
    assert (Heq : [v0; v1; v2] = [1; 11; 12]).
    { apply (Sorted_unique Z.le); [| |exact HP']; repeat constructor; auto; lia. }
    simplify_eq. lia.
Qed.

Lemma isStraight_spec_witness :
  isStraight [mkCard club K; mkCard heart A; mkCard spade Q] = true /\
  isStraight [mkCard club R3; mkCard heart A; mkCard club R2] = true /\
  isStraight [mkCard club Q; mkCard club J; mkCard club A] = false.
Proof.
  split; [|split].
  - refine (proj1 (proj2 (isStraight_spec (mkCard club K) (mkCard heart A) (mkCard spade Q)
             [mkCard club K; mkCard heart A; mkCard spade Q])) _).
    cbn. apply Permutation_swap.
  - refine (proj1 (proj2 (proj2 (isStraight_spec (mkCard club K) (mkCard heart A)
             (mkCard spade Q) [mkCard club R3; mkCard heart A; mkCard club R2]))) _).
    cbn. etrans; [apply Permutation_swap|]. apply Permutation_skip, Permutation_swap.
  - refine (proj2 (proj2 (proj2 (isStraight_spec (mkCard club K) (mkCard heart A)
             (mkCard spade Q) [mkCard club Q; mkCard club J; mkCard club A]))) _).
    cbn. etrans; [apply Permutation_skip, Permutation_swap|].
    etrans; [apply Permutation_swap|]. apply Permutation_skip, Permutation_swap.
Defined.

(** ** The evaluation pass *)

Lemma length_omap_le {X Y} (f : X -> option Y) (l : list X) :
  (length (omap f l) <= length l)%nat.
Proof.
  induction l as [|x l IH]; cbn; [lia|]. destruct (f x); cbn; lia.
Qed.

Lemma length_omap_full {X Y} (f : X -> option Y) (l : list X) :
  length (omap f l) = length l <-> Forall (fun x => is_Some (f x)) l.
Proof.
  induction l as [|x l IH]; cbn.
  - split; auto.
  - pose proof (length_omap_le f l) as Hle. destruct (f x) as [y|] eqn:E; cbn.
    + split.
      * intros H. constructor; [rewrite E; eauto|]. apply IH. lia.
      * intros H. inversion H; subst. f_equal. apply IH. assumption.
    + split.
      * intros H. lia.
      * intros H. inversion H as [|? ? [? Hx] ?]; subst. congruence.
Qed.

Lemma PATTERNS_length : Forall (fun pattern : list nat => length pattern = 3%nat) PATTERNS.
Proof. repeat constructor. Qed.

Lemma PATTERNS_in_grid :
  Forall (fun pattern : list nat => Forall (fun index => index < 9)%nat pattern) PATTERNS.
Proof. unfold PATTERNS. repeat (constructor; try lia). Qed.

Lemma candidate_iff (g : list (option Card)) (pattern : list nat) :
  length pattern = 3%nat ->
  (length (cardsOf g pattern) =? 3)%nat = true <-> fullyOccupied g pattern.
Proof.
  intros Hlen. rewrite Nat.eqb_eq, <- Hlen. apply length_omap_full.
Qed.

(** The list that [checkPatterns] filters out of [PATTERNS] is the list of
    matches. *)
Lemma validPatternsOf_matches (g : list (option Card)) :
  (fun pc => (fst pc, getPatternType (snd pc))) <$> validPatternsOf g
  = (fun m => (fst m, Some (snd m))) <$> matches g.
Proof.
  unfold validPatternsOf, matches.
  pose proof PATTERNS_length as H. revert H. generalize PATTERNS.
  induction l as [|p ps IH]; intros Hl; [reflexivity|].
  inversion Hl as [|? ? Hp Hps]; subst. specialize (IH Hps).
  cbn [fmap list_fmap omap list_omap]. rewrite filter_cons. cbn [snd].
  pose proof (candidate_iff g p Hp) as Hc.
  unfold isPattern. destruct (decide (fullyOccupied g p)) as [Hf|Hf].
  - apply Hc in Hf. rewrite Hf. cbn [andb].
    destruct (getPatternType (cardsOf g p)) as [t|] eqn:Et.
    + rewrite decide_True by (apply bool_decide_eq_true; eauto).
      cbn. rewrite Et. f_equal. exact IH.
    + rewrite decide_False; [exact IH|].
      rewrite bool_decide_eq_true. intros [? ?]; discriminate.
  - rewrite decide_False; [exact IH|].
    intros Ht. apply andb_true_iff in Ht as [Ht _]. apply Hf, Hc, Ht.
Qed.

Lemma validPatternsOf_length (g : list (option Card)) :
  length (validPatternsOf g) = length (matches g).
Proof.
  pose proof (f_equal length (validPatternsOf_matches g)) as H.
  rewrite !length_fmap in H. exact H.
Qed.

Lemma validPatternsOf_triples (g : list (option Card)) :
  fst <$> validPatternsOf g = fst <$> matches g.
Proof.
  pose proof (f_equal (fmap fst) (validPatternsOf_matches g)) as H.
  rewrite <- !list_fmap_compose in H. exact H.
Qed.

Lemma foldl_sum_fmap {X} (f : X -> Z) (l : list X) (acc : Z) :
  foldl (fun sum x => sum + f x) acc l = acc + sumZ (f <$> l).
Proof.
  unfold sumZ. revert acc. induction l as [|x l IH]; intros acc; cbn; [lia|].
  rewrite IH. lia.
Qed.

Lemma validPatternsOf_base (g : list (option Card)) :
  foldl (fun sum pt => sum + scoreOf (snd (fst pt))) 0
        ((fun pc => (fst pc, getPatternType (snd pc), snd pc)) <$> validPatternsOf g)
  = sumZ ((fun m => SCORE_VALUES (snd m)) <$> matches g).
Proof.
  rewrite foldl_sum_fmap, <- list_fmap_compose, Z.add_0_l.
  change (sumZ (((fun pt : list nat * option Pattern * list Card => scoreOf (snd (fst pt)))
                   ∘ (fun pc => (fst pc, getPatternType (snd pc), snd pc)))
                  <$> validPatternsOf g))
    with (sumZ (((fun q : list nat * option Pattern => scoreOf (snd q))
                   ∘ (fun pc => (fst pc, getPatternType (snd pc)))) <$> validPatternsOf g)).
  rewrite (list_fmap_compose (fun pc : list nat * list Card => (fst pc, getPatternType (snd pc)))
             (fun q : list nat * option Pattern => scoreOf (snd q))).
  rewrite validPatternsOf_matches, <- list_fmap_compose. reflexivity.
Qed.

Lemma lookupMultiplier_combo (n : nat) :
  lookupMultiplier (Z.min (Z.of_nat n) 4) = comboMultiplier n.
Proof.
  destruct n as [|[|[|[|n]]]]; try reflexivity.
  rewrite Z.min_r by lia. reflexivity.
Qed.

Lemma processPatterns_score (vp : list (list nat * list Card)) (st : Session) :
  score (processPatterns vp st)
  = score st
    + foldl (fun sum pt => sum + scoreOf (snd (fst pt))) 0
            ((fun pc => (fst pc, getPatternType (snd pc), snd pc)) <$> vp)
      * lookupMultiplier (Z.min (Z.of_nat (length vp)) 4).
Proof.
  unfold processPatterns. cbn zeta.
  destruct (2 <=? Z.of_nat (length vp)); reflexivity.
Qed.

Lemma checkPatterns_score_eq (st : Session) :
  score (checkPatterns st) = score st + totalPointsOf (grid st).
Proof.
  unfold checkPatterns, totalPointsOf.
  destruct (0 <? length (validPatternsOf (grid st)))%nat eqn:E.
  - rewrite processPatterns_score, validPatternsOf_base, validPatternsOf_length,
      lookupMultiplier_combo. reflexivity.
  - apply Nat.ltb_ge in E. rewrite validPatternsOf_length in E.
    destruct (matches (grid st)); cbn in *; lia.
Qed.

Lemma new_Set_acc (xs acc : list nat) :
  NoDup acc ->
  let s := foldl (fun s x => if decide (x ∈ s) then s else s ++ [x]) acc xs in
  NoDup s /\ forall x, x ∈ s <-> x ∈ acc \/ x ∈ xs.
Proof.
  revert acc. induction xs as [|y xs IH]; intros acc Hnd; cbn.
  - split; [assumption|]. intros x. rewrite elem_of_nil. tauto.
  - destruct (decide (y ∈ acc)) as [Hy|Hy].
    + destruct (IH acc Hnd) as [H1 H2]. split; [assumption|].
      intros x. rewrite H2, elem_of_cons. split; [tauto|].
      intros [?|[->|?]]; auto.
    + assert (Hnd' : NoDup (acc ++ [y])).
      { apply NoDup_app. repeat split; [assumption| |apply NoDup_singleton].
        intros x Hx Hx'. apply list_elem_of_singleton in Hx'. subst. auto. }
      destruct (IH _ Hnd') as [H1 H2]. split; [assumption|].
      intros x. rewrite H2, elem_of_app, list_elem_of_singleton, elem_of_cons. tauto.
Qed.

Lemma new_Set_NoDup (xs : list nat) : NoDup (new_Set xs).
Proof. apply (new_Set_acc xs []), NoDup_nil_2. Qed.

Lemma elem_of_new_Set (xs : list nat) (x : nat) : x ∈ new_Set xs <-> x ∈ xs.
Proof.
  destruct (new_Set_acc xs [] (NoDup_nil_2)) as [_ H]. unfold new_Set.
  rewrite H, elem_of_nil. tauto.
Qed.

Lemma clear_length (cs : list nat) (g : list (option Card)) :
  length (foldl (fun g index => <[index := None]> g) g cs) = length g.
Proof.
  revert g. induction cs as [|c cs IH]; intros g; cbn; [reflexivity|].
  rewrite IH, length_insert. reflexivity.
Qed.

Lemma clear_lookup_notin (cs : list nat) (g : list (option Card)) (i : nat) :
  i ∉ cs -> foldl (fun g index => <[index := None]> g) g cs !! i = g !! i.
Proof.
  revert g. induction cs as [|c cs IH]; intros g Hi; cbn; [reflexivity|].
  apply not_elem_of_cons in Hi as [Hic Hi].
  rewrite IH by assumption. apply list_lookup_insert_ne. congruence.
Qed.

Lemma clear_lookup_in (cs : list nat) (g : list (option Card)) (i : nat) :
  i ∈ cs -> (i < length g)%nat ->
  foldl (fun g index => <[index := None]> g) g cs !! i = Some None.
Proof.
  revert g. induction cs as [|c cs IH]; intros g Hi Hlt; cbn.
  - apply elem_of_nil in Hi. contradiction.
  - destruct (decide (i ∈ cs)) as [Hin|Hnin].
    + apply IH; [assumption|]. rewrite length_insert. assumption.
    + apply elem_of_cons in Hi as [->|Hi]; [|contradiction].
      rewrite clear_lookup_notin by assumption.
      apply list_lookup_insert_eq. assumption.
Qed.

Lemma processPatterns_grid (vp : list (list nat * list Card)) (st : Session) :
  grid (processPatterns vp st)
  = foldl (fun g index => <[index := None]> g) (grid st) (cellsToRemoveOf vp).
Proof.
  unfold processPatterns. cbn zeta.
  destruct (2 <=? Z.of_nat (length vp)); reflexivity.
Qed.

Lemma elem_of_matches (g : list (option Card)) (m : list nat * Pattern) :
  m ∈ matches g <->
  fst m ∈ PATTERNS /\ fullyOccupied g (fst m) /\ getPatternType (cardsOf g (fst m)) = Some (snd m).
Proof.
  unfold matches. rewrite list_elem_of_omap. split.
  - intros (p & Hp & H). destruct (decide (fullyOccupied g p)) as [Hf|]; [|discriminate].
    destruct (getPatternType (cardsOf g p)) as [t|] eqn:Et; [|discriminate].
    cbn in H. simplify_eq. cbn. auto.
  - intros (Hp & Hf & Ht). exists (fst m). split; [assumption|].
    rewrite decide_True by assumption. rewrite Ht. destruct m; reflexivity.
Qed.

Lemma fullyOccupied_lookup (g : list (option Card)) (pattern : list nat) (i : nat) :
  fullyOccupied g pattern -> i ∈ pattern -> exists c, g !! i = Some (Some c).
Proof.
  intros Hf Hi. unfold fullyOccupied in Hf. rewrite Forall_forall in Hf.
  destruct (Hf i Hi) as [c Hc]. exists c. unfold cellAt in Hc.
  destruct (g !! i) as [[c'|]|]; cbn in Hc; congruence.
Qed.

Lemma elem_of_cellsToRemove (g : list (option Card)) (i : nat) :
  i ∈ cellsToRemoveOf (validPatternsOf g) <-> inMatchedTriple g i.
Proof.
  unfold cellsToRemoveOf, inMatchedTriple. rewrite elem_of_new_Set, list_elem_of_bind. split.
  - intros (pc & Hi & Hpc).
    assert (Hp : fst pc ∈ fst <$> matches g).
    { rewrite <- validPatternsOf_triples. apply list_elem_of_fmap_2. assumption. }
    apply list_elem_of_fmap in Hp as (m & E & Hm). exists m. rewrite <- E. auto.
  - intros (m & Hm & Hi).
    assert (Hp : fst m ∈ fst <$> validPatternsOf g).
    { rewrite validPatternsOf_triples. apply list_elem_of_fmap_2. assumption. }
    apply list_elem_of_fmap in Hp as (pc & E & Hpc). exists pc. rewrite <- E. auto.
Qed.

Lemma inMatchedTriple_occupied (g : list (option Card)) (i : nat) :
  inMatchedTriple g i -> exists c, g !! i = Some (Some c).
Proof.
  intros (m & Hm & Hi). apply elem_of_matches in Hm as (_ & Hf & _).
  exact (fullyOccupied_lookup g _ i Hf Hi).
Qed.

Lemma checkPatterns_grid (st : Session) :
  grid (checkPatterns st)
  = foldl (fun g index => <[index := None]> g) (grid st)
          (cellsToRemoveOf (validPatternsOf (grid st))).
Proof.
  unfold checkPatterns.
  destruct (0 <? length (validPatternsOf (grid st)))%nat eqn:E.
  - apply processPatterns_grid.
  - apply Nat.ltb_ge in E. destruct (validPatternsOf (grid st)); [reflexivity|cbn in E; lia].
Qed.

Lemma checkPatterns_cleared (st : Session) (i : nat) :
  inMatchedTriple (grid st) i -> grid (checkPatterns st) !! i = Some None.
Proof.
  intros Hi. rewrite checkPatterns_grid.
  apply clear_lookup_in; [apply elem_of_cellsToRemove; assumption|].
  destruct (inMatchedTriple_occupied _ _ Hi) as [c Hc].
  apply lookup_lt_Some in Hc. assumption.
Qed.

Lemma checkPatterns_kept (st : Session) (i : nat) :
  ~ inMatchedTriple (grid st) i -> grid (checkPatterns st) !! i = grid st !! i.
Proof.
  intros Hi. rewrite checkPatterns_grid.
  apply clear_lookup_notin. rewrite elem_of_cellsToRemove. assumption.
Qed.

Lemma checkPatterns_length (st : Session) :
  length (grid (checkPatterns st)) = length (grid st).
Proof. rewrite checkPatterns_grid. apply clear_length. Qed.

(** ** Placement *)

Lemma drawCard_fields (st : Session) :
  let st' := snd (drawCard st) in
  grid st' = grid st /\ score st' = score st /\ gameOver st' = gameOver st /\
  gameLog st' = gameLog st /\ currentCard st' = currentCard st /\
  deck st' = removelast (deck st) /\ fst (drawCard st) = last (deck st).
Proof.
  unfold drawCard. destruct (deck st) as [|c d] eqn:E; cbn; rewrite ?E; repeat split.
Qed.

Lemma checkGameOver_fields (st : Session) :
  let st' := checkGameOver st in
  grid st' = grid st /\ score st' = score st /\ deck st' = deck st /\
  gameLog st' = gameLog st /\ currentCard st' = currentCard st.
Proof.
  unfold checkGameOver. cbn zeta.
  destruct (_ || _); repeat split.
Qed.

Lemma placeCard_effective (index : nat) (st : Session) :
  cellAt (grid st) index = None -> is_Some (currentCard st) ->
  placeCard index st
  = checkGameOver
      (displayCurrentCard (fst (drawCard (afterEvaluation index st)))
                          (snd (drawCard (afterEvaluation index st)))).
Proof.
  intros Hcell Hcard. unfold placeCard.
  rewrite Hcell. rewrite bool_decide_eq_false_2 by (intros [? ?]; discriminate).
  rewrite (bool_decide_eq_true_2 _ Hcard). cbn [orb negb].
  fold (afterEvaluation index st).
  destruct (drawCard (afterEvaluation index st)) as [nextCard st']. reflexivity.
Qed.

Lemma placeCard_score (index : nat) (st : Session) :
  cellAt (grid st) index = None -> is_Some (currentCard st) ->
  score (placeCard index st)
  = score st + totalPointsOf (<[index := currentCard st]> (grid st)).
Proof.
  intros Hcell Hcard. rewrite (placeCard_effective index st Hcell Hcard).
  destruct (checkGameOver_fields
              (displayCurrentCard (fst (drawCard (afterEvaluation index st)))
                                  (snd (drawCard (afterEvaluation index st)))))
    as (_ & -> & _).
  cbn [displayCurrentCard setCurrentCard score].
  destruct (drawCard_fields (afterEvaluation index st)) as (_ & -> & _).
  unfold afterEvaluation. rewrite checkPatterns_score_eq. reflexivity.
Qed.

(** C5. An evaluation pass adds to the score the sum of the base points of
    its matches (flush 50, straight 100, threeOfAKind 100, straightFlush 200)
    times the combo multiplier of their number N: 1 for N = 1, 2 for N = 2,
    4 for N = 3 and 8 from N = 4 on. This is the whole change of the score in
    a placement. *)
Theorem pass_score (st : Session) (index : nat) :
  let points (g : list (option Card)) :=
    sumZ ((fun m => SCORE_VALUES (snd m)) <$> matches g)
    * comboMultiplier (length (matches g)) in
  score (checkPatterns st) = score st + points (grid st) /\
  (cellAt (grid st) index = None -> is_Some (currentCard st) ->
   score (placeCard index st)
   = score st + points (<[index := currentCard st]> (grid st))) /\
  SCORE_VALUES <$> [flush; straight; threeOfAKind; straightFlush] = [50; 100; 100; 200] /\
  comboMultiplier <$> [1; 2; 3; 4]%nat = [1; 2; 4; 8] /\
  (forall n, (4 <= n)%nat -> comboMultiplier n = 8).
Proof.
  cbn zeta. split; [apply checkPatterns_score_eq|].
  split; [apply placeCard_score|].
  split; [reflexivity|]. split; [reflexivity|].
  intros n Hn. do 4 (destruct n as [|n]; [lia|]). reflexivity.
Qed.

Lemma pass_score_witness :
  score (placeCard 4 comboSession) = 0 + (100 + 100) * 2.
Proof.
  refine (proj1 (proj2 (pass_score comboSession 4)) _ _).
  - reflexivity.
  - cbn. eauto.
Defined.

(** C6. A pass reports matches only among triples whose three cells are
    occupied; the cells it empties are those of the matched triples, each
    listed once in the clear set however many matched triples share it; all
    other cells keep their content. *)
Theorem pass_clearing (st : Session) :
  let g := grid st in
  let g' := grid (checkPatterns st) in
  let cellsToRemove := cellsToRemoveOf (validPatternsOf g) in
  fst <$> validPatternsOf g = fst <$> matches g /\
  (forall m i, m ∈ matches g -> i ∈ fst m -> exists c, g !! i = Some (Some c)) /\
  NoDup cellsToRemove /\
  (forall i, i ∈ cellsToRemove <-> inMatchedTriple g i) /\
  length g' = length g /\
  (forall i, inMatchedTriple g i -> g' !! i = Some None) /\
  (forall i, ~ inMatchedTriple g i -> g' !! i = g !! i).
Proof.
  cbn zeta. split; [apply validPatternsOf_triples|].
  split.
  { intros m i Hm Hi. apply elem_of_matches in Hm as (_ & Hf & _).
    exact (fullyOccupied_lookup _ _ i Hf Hi). }
  split; [apply new_Set_NoDup|].
  split; [apply elem_of_cellsToRemove|].
  split; [apply checkPatterns_length|].
  split; [apply checkPatterns_cleared|apply checkPatterns_kept].
Qed.

Lemma pass_clearing_witness :
  let st := setGrid (<[4%nat := Some (mkCard diamond R5)]> (grid comboSession)) comboSession in
  grid (checkPatterns st) !! 4%nat = Some None /\
  grid (checkPatterns st) !! 0%nat = grid st !! 0%nat.
Proof.
  intros st.
  destruct (pass_clearing st) as (_ & _ & _ & Hin & _ & Hcleared & Hkept).
  split.
  - apply Hcleared, Hin. vm_compute. repeat constructor.
  - apply Hkept. rewrite <- Hin. vm_compute. intros H.
    repeat (apply elem_of_cons in H as [H|H]; [discriminate H|]).
    apply elem_of_nil in H. exact H.
Defined.

Lemma checkPatterns_fields (st : Session) :
  let st' := checkPatterns st in
  deck st' = deck st /\ currentCard st' = currentCard st /\ gameOver st' = gameOver st /\
  currentSeed st' = currentSeed st /\ seededRandom st' = seededRandom st.
Proof.
  unfold checkPatterns. cbn zeta.
  destruct (0 <? length (validPatternsOf (grid st)))%nat; [|repeat split].
  unfold processPatterns. cbn zeta.
  destruct (2 <=? Z.of_nat (length (validPatternsOf (grid st)))); repeat split.
Qed.

Lemma hasValidPatterns_matches (st : Session) :
  hasValidPatterns st = true <-> matches (grid st) <> [].
Proof.
  unfold hasValidPatterns. rewrite existsb_exists. split.
  - intros (p & Hp & H). apply andb_true_iff in H as [Hf Ht].
    rewrite forallb_forall in Hf.
    unfold isPattern in Ht. apply bool_decide_eq_true in Ht as [t Ht].
    assert (Hm : (p, t) ∈ matches (grid st)).
    { apply elem_of_matches. cbn. split; [apply list_elem_of_In; assumption|].
      split; [|assumption]. apply Forall_forall. intros i Hi.
      apply list_elem_of_In in Hi.
      specialize (Hf i Hi). apply bool_decide_eq_true in Hf. assumption. }
    intros E. rewrite E in Hm. apply elem_of_nil in Hm. assumption.
  - intros Hne. destruct (matches (grid st)) as [|m ms] eqn:E; [congruence|].
    assert (Hm : m ∈ matches (grid st)) by (rewrite E; left).
    apply elem_of_matches in Hm as (Hp & Hf & Ht).
    exists (fst m). split; [apply list_elem_of_In; assumption|].
    apply andb_true_iff. split.
    + apply forallb_forall. intros i Hi. apply list_elem_of_In in Hi.
      apply bool_decide_eq_true. unfold fullyOccupied in Hf.
      rewrite Forall_forall in Hf. auto.
    + unfold isPattern. apply bool_decide_eq_true. eauto.
Qed.

Lemma gridFull_forallb (g : list (option Card)) :
  forallb (fun cell => bool_decide (cell <> None)) g = true <-> gridFull g.
Proof.
  unfold gridFull. rewrite forallb_forall, Forall_forall. split; intros H c Hc.
  - apply list_elem_of_In in Hc. apply H, bool_decide_eq_true in Hc. assumption.
  - apply bool_decide_eq_true, H, list_elem_of_In, Hc.
Qed.

Lemma checkGameOver_gameOver (st : Session) :
  gameOver (checkGameOver st) = true <-> gameOver st = true \/ gameOverCondition st.
Proof.
  unfold checkGameOver, gameOverCondition. cbn zeta.
  destruct (_ || _) eqn:E; cbn.
  - split; [|reflexivity]. intros _. right.
    apply orb_true_iff in E as [E|E]; apply andb_true_iff in E as [E1 E2]; [left|right].
    + apply gridFull_forallb in E1. split; [assumption|].
      apply negb_true_iff in E2.
      destruct (matches (grid st)) eqn:Em; [reflexivity|].
      assert (hasValidPatterns st = true) by (apply hasValidPatterns_matches; congruence).
      congruence.
    + apply Nat.eqb_eq in E1. apply negb_true_iff, bool_decide_eq_false in E2.
      split; [destruct (deck st); [reflexivity|discriminate]|].
      destruct (currentCard st); [exfalso; apply E2; eauto|reflexivity].
  - split; [tauto|]. intros [H|H]; [assumption|exfalso].
    apply orb_false_iff in E as [E1 E2]. destruct H as [[Hf Hm]|[Hd Hc]].
    + apply andb_false_iff in E1 as [E1|E1].
      * apply gridFull_forallb in Hf. congruence.
      * apply negb_false_iff, hasValidPatterns_matches in E1. contradiction.
    + rewrite Hd, Hc in E2. discriminate.
Qed.

Lemma placeCard_gameOver_iff (index : nat) (st : Session) :
  cellAt (grid st) index = None -> is_Some (currentCard st) ->
  gameOver (placeCard index st) = true <->
  gameOver st = true \/ gameOverCondition (placeCard index st).
Proof.
  intros Hcell Hcard. rewrite (placeCard_effective index st Hcell Hcard).
  set (st1 := displayCurrentCard _ _).
  rewrite checkGameOver_gameOver.
  assert (Hg : gameOver st1 = gameOver st).
  { unfold st1. cbn [displayCurrentCard setCurrentCard gameOver].
    destruct (drawCard_fields (afterEvaluation index st)) as (_ & _ & -> & _).
    unfold afterEvaluation.
    destruct (checkPatterns_fields (setGrid (<[index:=currentCard st]> (grid st)) st))
      as (_ & _ & -> & _). reflexivity. }
  destruct (checkGameOver_fields st1) as (Eg & _ & Ed & _ & Ec).
  unfold gameOverCondition. rewrite Hg, Eg, Ed, Ec. reflexivity.
Qed.

Lemma placeCard_exhausted (index : nat) (st : Session) :
  cellAt (grid st) index = None -> is_Some (currentCard st) -> deck st = [] ->
  gameOver (placeCard index st) = true /\
  deck (placeCard index st) = [] /\ currentCard (placeCard index st) = None.
Proof.
  intros Hcell Hcard Hdeck.
  assert (Hd : deck (placeCard index st) = [] /\ currentCard (placeCard index st) = None).
  { rewrite (placeCard_effective index st Hcell Hcard).
    set (st1 := displayCurrentCard _ _).
    destruct (checkGameOver_fields st1) as (_ & _ & -> & _ & ->).
    unfold st1. cbn [displayCurrentCard setCurrentCard deck currentCard].
    destruct (drawCard_fields (afterEvaluation index st)) as (_ & _ & _ & _ & _ & -> & ->).
    unfold afterEvaluation.
    destruct (checkPatterns_fields (setGrid (<[index:=currentCard st]> (grid st)) st))
      as (-> & _). cbn [setGrid deck]. rewrite Hdeck. split; reflexivity. }
  split; [|exact Hd].
  apply placeCard_gameOver_iff; [assumption..|]. right. right. exact Hd.
Qed.

Lemma onClick_effective (index : nat) (st : Session) :
  gameOver st = false -> cellAt (grid st) index = None -> is_Some (currentCard st) ->
  onClick index st = placeCard index st.
Proof.
  intros Hg Hcell Hcard. unfold onClick. rewrite Hg, Hcell.
  rewrite bool_decide_eq_false_2 by (intros [? ?]; discriminate).
  rewrite (bool_decide_eq_true_2 _ Hcard). reflexivity.
Qed.

Lemma placement_gameOver_aux (index : nat) (st : Session) :
  gameOver st = false -> cellAt (grid st) index = None -> is_Some (currentCard st) ->
  onClick index st = placeCard index st /\
  (gameOver (placeCard index st) = true <-> gameOverCondition (placeCard index st)).
Proof.
  intros Hg Hcell Hcard. split; [apply onClick_effective; assumption|].
  rewrite (placeCard_gameOver_iff index st Hcell Hcard), Hg.
  split; [intros [?|?]; [discriminate|assumption]|auto].
Qed.

(** C7. After a placement (the card put down, the matches cleared, the next
    card drawn) the game is over exactly when the grid is full with no
    matching triple, or the deck is empty with no card in hand; a placement
    made with an empty deck leaves no card to draw and so ends the game
    whatever the grid holds. *)
Theorem placement_gameOver (index : nat) (st : Session) :
  (index < length (grid st))%nat ->
  gameOver st = false -> cellAt (grid st) index = None -> is_Some (currentCard st) ->
  let st' := onClick index st in
  st' = placeCard index st /\
  (gameOver st' = true <-> gameOverCondition st') /\
  (deck st = [] -> gameOver st' = true /\ deck st' = [] /\ currentCard st' = None).
Proof.
  intros _ Hg Hcell Hcard. cbn zeta.
  rewrite (onClick_effective index st Hg Hcell Hcard).
  split; [reflexivity|]. split.
  - rewrite (placeCard_gameOver_iff index st Hcell Hcard), Hg.
    split; [intros [?|?]; [discriminate|assumption]|auto].
  - apply placeCard_exhausted; assumption.
Qed.

Lemma placement_gameOver_witness :
  gameOver (onClick 2 exhaustedSession) = true /\
  (gameOver (onClick 2 lastDrawSession) = true <-> gameOverCondition (onClick 2 lastDrawSession)).
Proof.
  split.
  - refine (proj1 (proj2 (proj2 (placement_gameOver 2 exhaustedSession _ _ _ _)) _)).
    + cbn. lia.
    + reflexivity.
    + reflexivity.
    + cbn. eauto.
    + reflexivity.
  - refine (proj1 (proj2 (placement_gameOver 2 lastDrawSession _ _ _ _))).
    + cbn. lia.
    + reflexivity.
    + reflexivity.
    + cbn. eauto.
Defined.

Lemma placeCard_ignored (index : nat) (st : Session) :
  is_Some (cellAt (grid st) index) \/ currentCard st = None -> placeCard index st = st.
Proof.
  intros [H|H]; unfold placeCard.
  - rewrite (bool_decide_eq_true_2 _ H). reflexivity.
  - rewrite H. rewrite (bool_decide_eq_false_2 (is_Some None)) by (intros [? ?]; discriminate).
    rewrite orb_true_r. reflexivity.
Qed.

Lemma onClick_ignored (index : nat) (st : Session) :
  is_Some (cellAt (grid st) index) \/ currentCard st = None \/ gameOver st = true ->
  onClick index st = st.
Proof.
  intros [H|[H|H]]; unfold onClick.
  - rewrite (bool_decide_eq_true_2 _ H), andb_false_r. reflexivity.
  - rewrite H. rewrite (bool_decide_eq_false_2 (is_Some None)) by (intros [? ?]; discriminate).
    rewrite andb_false_r. reflexivity.
  - rewrite H. reflexivity.
Qed.

Lemma remainingCards_last (st : Session) :
  deck st = [] -> is_Some (currentCard st) -> remainingCards st = -1.
Proof.
  intros Hd [c Hc]. unfold remainingCards. rewrite Hd, Hc. reflexivity.
Qed.

Lemma placeCard_last_draw (index : nat) (st : Session) (c : Card) :
  deck st = [c] -> cellAt (grid st) index = None -> is_Some (currentCard st) ->
  deck (placeCard index st) = [] /\ currentCard (placeCard index st) = Some c.
Proof.
  intros Hdeck Hcell Hcard.
  rewrite (placeCard_effective index st Hcell Hcard).
  set (st1 := displayCurrentCard _ _).
  destruct (checkGameOver_fields st1) as (_ & _ & -> & _ & ->).
  unfold st1. cbn [displayCurrentCard setCurrentCard deck currentCard].
  destruct (drawCard_fields (afterEvaluation index st)) as (_ & _ & _ & _ & _ & -> & ->).
  unfold afterEvaluation.
  destruct (checkPatterns_fields (setGrid (<[index:=currentCard st]> (grid st)) st))
    as (-> & _). cbn [setGrid deck]. rewrite Hdeck. split; reflexivity.
Qed.

(** C10. With an empty deck and a card in hand the remaining-card count is
    -1. Such a state arises when the last card of the deck is drawn: the
    placement that draws it leaves the deck empty and the card in hand, and
    the game then goes on unless the grid is full without a match. *)
Theorem remainingCards_negative (st : Session) (index : nat) (c : Card) :
  (deck st = [] -> is_Some (currentCard st) -> remainingCards st = -1) /\
  ((index < length (grid st))%nat ->
   gameOver st = false -> cellAt (grid st) index = None -> is_Some (currentCard st) ->
   deck st = [c] ->
   let st' := onClick index st in
   deck st' = [] /\ currentCard st' = Some c /\ remainingCards st' = -1 /\
   (gameOver st' = true <-> gridFull (grid st') /\ matches (grid st') = [])).
Proof.
  split; [apply remainingCards_last|].
  intros Hi Hg Hcell Hcard Hdeck. cbn zeta.
  destruct (placement_gameOver_aux index st Hg Hcell Hcard) as (E & Hover).
  rewrite E in *.
  destruct (placeCard_last_draw index st c Hdeck Hcell Hcard) as (Hd & Hc).
  split; [assumption|]. split; [assumption|].
  split; [apply remainingCards_last; [assumption|rewrite Hc; eauto]|].
  rewrite Hover. unfold gameOverCondition. rewrite Hc. split.
  - intros [H|[_ H]]; [assumption|discriminate].
  - auto.
Qed.

Lemma remainingCards_negative_witness :
  remainingCards (onClick 2 lastDrawSession) = -1 /\
  gameOver (onClick 2 lastDrawSession) = false.
Proof.
  destruct (proj2 (remainingCards_negative lastDrawSession 2 (mkCard club R9)))
    as (_ & _ & Hr & _).
  - cbn. lia.
  - reflexivity.
  - reflexivity.
  - cbn. eauto.
  - reflexivity.
  - split; [exact Hr|reflexivity].
Defined.

(** ** The seed hash *)


Lemma ToInt32_small (z : Z) : - 2 ^ 31 <= z < 2 ^ 31 -> ToInt32 z = z.
Proof.
  intros H. unfold ToInt32. rewrite Z.mod_small by lia. lia.
Qed.

Lemma ToInt32_add_l (a b : Z) : ToInt32 (ToInt32 a + b) = ToInt32 (a + b).
Proof.
  unfold ToInt32. f_equal.
  replace ((a + 2 ^ 31) mod 2 ^ 32 - 2 ^ 31 + b + 2 ^ 31)
    with ((a + 2 ^ 31) mod 2 ^ 32 + b) by lia.
  rewrite Zplus_mod_idemp_l. f_equal. lia.
Qed.

Lemma ToInt32_mul_l (a k : Z) : ToInt32 (ToInt32 a * k) = ToInt32 (a * k).
Proof.
  unfold ToInt32. f_equal.
  replace (((a + 2 ^ 31) mod 2 ^ 32 - 2 ^ 31) * k + 2 ^ 31)
    with ((a + 2 ^ 31) mod 2 ^ 32 * k + (2 ^ 31 - 2 ^ 31 * k)) by lia.
  rewrite <- Zplus_mod_idemp_l, Zmult_mod_idemp_l, Zplus_mod_idemp_l. f_equal. lia.
Qed.

(** One step of the fold in [createSeededRandom] is the step of the
    specification, that is [31 * hash + charCode] wrapped to 32 bits. *)
Lemma hash_step (acc charCode : Z) :
  ToInt32 (shl acc 5 - acc + charCode) = spec_hash_step acc charCode /\
  spec_hash_step acc charCode = ToInt32 (31 * acc + charCode).
Proof.
  unfold spec_hash_step, shl. rewrite !Z.shiftl_mul_pow2 by lia. split.
  - replace (ToInt32 (ToInt32 acc * 2 ^ 5) - acc + charCode)
      with (ToInt32 (ToInt32 acc * 2 ^ 5) + (charCode - acc)) by lia.
    rewrite ToInt32_add_l.
    rewrite <- ToInt32_add_l, ToInt32_mul_l, ToInt32_add_l. f_equal. lia.
  - f_equal. lia.
Qed.

Lemma createSeededRandom_fold (seed : JSString) :
  createSeededRandom seed = foldl spec_hash_step 0 (charCodeAt0 <$> Array_from seed).
Proof.
  unfold createSeededRandom. generalize 0.
  induction (Array_from seed) as [|char chars IH]; intros acc; cbn; [reflexivity|].
  rewrite (proj1 (hash_step acc (charCodeAt0 char))). apply IH.
Qed.


(** Without a lead surrogate in the seed, every code unit is a character of
    its own. *)
Lemma Array_from_units (seed : JSString) :
  Forall (fun u => isLeadSurrogate u = false) seed ->
  charCodeAt0 <$> Array_from seed = seed.
Proof.
  induction seed as [|u rest IH]; intros H; [reflexivity|].
  inversion H as [|? ? Hu Hrest]; subst. specialize (IH Hrest).
  cbn [Array_from]. destruct rest as [|v rest']; [reflexivity|].
  rewrite Hu. cbn [andb fmap list_fmap charCodeAt0]. f_equal. exact IH.
Qed.

(** ** The generator *)

Section Generator.
Variable F : Number.

Lemma generator_call (hash : Z) :
  generator F hash = (sinFraction F hash, hash + 1).
Proof. reflexivity. Qed.

(** The outputs of the closure, call after call: the k-th call (from 0)
    takes the sine of [hash + k]. *)
Lemma generator_outputs (n : nat) (hash : Z) :
  outputs F (generator F) n hash
  = ((fun k => sinFraction F (hash + Z.of_nat k)) <$> seq 0 n, hash + Z.of_nat n).
Proof.
  revert hash. induction n as [|n IH]; intros hash.
  - cbn. f_equal. lia.
  - cbn [outputs]. rewrite generator_call, IH. cbn [seq fmap list_fmap].
    rewrite <- fmap_S_seq, <- list_fmap_compose. f_equal.
    + f_equal; [f_equal; lia|]. apply list_fmap_ext. intros _ k _. cbn. f_equal. lia.
    + lia.
Qed.

(** The same for the generator as the specification words it: its k-th
    call takes the sine of [hash + k + 1]. *)
Lemma spec_generator_outputs (n : nat) (hash : Z) :
  outputs F (spec_generator F) n hash
  = ((fun k => sinFraction F (hash + Z.of_nat k + 1)) <$> seq 0 n, hash + Z.of_nat n).
Proof.
  revert hash. induction n as [|n IH]; intros hash.
  - cbn. f_equal. lia.
  - cbn [outputs]. unfold spec_generator at 1. cbn zeta. rewrite IH.
    cbn [seq fmap list_fmap].
    rewrite <- fmap_S_seq, <- list_fmap_compose. f_equal.
    + f_equal; [f_equal; lia|]. apply list_fmap_ext. intros _ k _. cbn. f_equal. lia.
    + lia.
Qed.

(** ** The shuffle *)

Lemma swap_length (l : list Card) (i : nat) (j : Z) : length (swap l i j) = length l.
Proof.
  unfold swap. destruct (0 <=? j); [|reflexivity].
  destruct (l !! i), (l !! Z.to_nat j); rewrite ?length_insert; reflexivity.
Qed.

Lemma swap_Permutation (l : list Card) (i : nat) (j : Z) : swap l i j ≡ₚ l.
Proof.
  unfold swap. destruct (0 <=? j); [|reflexivity].
  destruct (l !! i) as [x|] eqn:Ei; [|reflexivity].
  destruct (l !! Z.to_nat j) as [y|] eqn:Ej; [|reflexivity].
  set (k := Z.to_nat j) in *.
  destruct (decide (i = k)) as [->|Hne].
  - simplify_eq. rewrite list_insert_insert_eq, list_insert_id by assumption. reflexivity.
  - symmetry. apply Permutation_inj. split.
    { rewrite !length_insert. reflexivity. }
    exists (fun n => if decide (n = i) then k else if decide (n = k) then i else n).
    split.
    + intros a b. repeat case_decide; intros; simplify_eq; congruence.
    + intros n. destruct (decide (n = i)) as [->|Hni].
      * rewrite list_lookup_insert_eq, Ei; [reflexivity|].
        rewrite length_insert. eapply lookup_lt_Some; eassumption.
      * destruct (decide (n = k)) as [->|Hnk].
        -- rewrite list_lookup_insert_ne by congruence.
           rewrite list_lookup_insert_eq, Ej; [reflexivity|].
           eapply lookup_lt_Some; eassumption.
        -- rewrite !list_lookup_insert_ne by congruence. reflexivity.
Qed.

Lemma shuffleLoop_length (i : nat) (l : list Card) (hash : Z) :
  length (fst (shuffleLoop F i l hash)) = length l.
Proof.
  revert l hash. induction i as [|i IH]; intros l hash; [reflexivity|].
  cbn [shuffleLoop]. rewrite generator_call. cbn zeta. rewrite IH. apply swap_length.
Qed.

Lemma shuffleLoop_Permutation (i : nat) (l : list Card) (hash : Z) :
  fst (shuffleLoop F i l hash) ≡ₚ l.
Proof.
  revert l hash. induction i as [|i IH]; intros l hash; [reflexivity|].
  cbn [shuffleLoop]. rewrite generator_call. cbn zeta. rewrite IH. apply swap_Permutation.
Qed.

Lemma shuffleLoop_hash (i : nat) (l : list Card) (hash : Z) :
  snd (shuffleLoop F i l hash) = hash + Z.of_nat i.
Proof.
  revert l hash. induction i as [|i IH]; intros l hash; [cbn; lia|].
  cbn [shuffleLoop]. rewrite generator_call. cbn zeta. rewrite IH. lia.
Qed.

End Generator.



Lemma swapIndex_range (F : Number) (hash : Z) (i : nat) :
  NumberLaws F -> 0 <= swapIndex F (sinFraction F hash) i <= Z.of_nat i.
Proof.
  intros laws. unfold swapIndex.
  pose proof (floor_scale F laws (sinFraction F hash) (Z.of_nat i + 1)
                (frac_in_unit F laws _)) as H.
  lia.
Qed.

(** With an index in [[0, i]] the exchange reads two elements of the array
    and writes them back crosswise; under [NumberLaws] every index of a pass
    is such an index. *)
Lemma swap_in_range (l : list Card) (i : nat) (j : Z) :
  (i < length l)%nat -> 0 <= j <= Z.of_nat i ->
  exists x y, l !! i = Some x /\ l !! Z.to_nat j = Some y /\
              swap l i j = <[Z.to_nat j := x]> (<[i := y]> l).
Proof.
  intros Hi Hj. unfold swap.
  destruct (lookup_lt_is_Some_2 l i Hi) as [x Hx].
  destruct (lookup_lt_is_Some_2 l (Z.to_nat j) ltac:(lia)) as [y Hy].
  exists x, y. rewrite Hx, Hy. destruct (0 <=? j) eqn:E; [auto|lia].
Qed.


Lemma ZeroNumber_laws : NumberLaws ZeroNumber.
Proof.
  split; cbn.
  - intros x. lia.
  - intros r n -> Hn. lia.
Qed.

(** ** The interface over the real numbers *)

Section Reals.
Local Open Scope R_scope.

Lemma RealNumber_laws : NumberLaws RealNumber.
Proof.
  split; cbn.
  - intros x. pose proof (base_fp x) as [H1 H2]. unfold frac_part in *. lra.
  - intros r n [Hr0 Hr1] Hn.
    pose proof (base_Int_part (r * IZR n)) as [H1 H2].
    assert (Hn' : 0 < IZR n) by (apply IZR_lt; assumption).
    assert (Hx : 0 <= r * IZR n < IZR n) by nra.
    split.
    + assert (Hlt : IZR (-1) < IZR (Int_part (r * IZR n))) by lra.
      apply lt_IZR in Hlt. lia.
    + apply lt_IZR. lra.
Qed.


Lemma sinFraction_real_0 : sinFraction RealNumber 0 = 0.
Proof.
  unfold sinFraction. cbn. rewrite sin_0, Rmult_0_l.
  rewrite <- (Int_part_spec 0 0) by lra. lra.
Qed.

End Reals.

(** ** Determinism of the shuffle *)

Lemma drawCard_eq (st : Session) :
  drawCard st = (last (deck st), setDeck (removelast (deck st)) st).
Proof.
  unfold drawCard. destruct st as [d g c s sd go m lg md h]. cbn.
  destruct d; reflexivity.
Qed.

Lemma shuffleDeck_eq (F : Number) (deck : list Card) (st : Session) :
  shuffleDeck F deck st
  = (fst (shuffleLoop F (length deck - 1) deck (seededRandom st)),
     setSeededRandom (seededRandom st + Z.of_nat (length deck - 1)) st).
Proof.
  unfold shuffleDeck.
  pose proof (shuffleLoop_hash F (length deck - 1) deck (seededRandom st)) as H.
  destruct (shuffleLoop F (length deck - 1) deck (seededRandom st)) as [l h].
  cbn in *. subst. reflexivity.
Qed.

Lemma startGame_sessionOfSeed (F : Number) (seed : option JSString) (uuid : JSString)
    (st : Session) :
  startGame F seed uuid st
  = sessionOfSeed F match seed with
                    | Some (u :: s) => u :: s
                    | Some [] | None => uuid
                    end.
Proof.
  unfold startGame. set (newSeed := match seed with Some (u :: s) => u :: s | _ => uuid end).
  rewrite shuffleDeck_eq, drawCard_eq. reflexivity.
Qed.

(** C1. The deck that [shuffleDeck(createDeck())] returns under the
    generator made from a seed does not depend on the session in which it
    runs: it is one function of the seed (the empty seed included), of 52
    cards; and a game started from a given non-empty seed begins in one and
    the same session whatever the previous one was. *)
Theorem shuffle_deterministic (F : Number) (seed : JSString) (st1 st2 : Session)
    (uuid1 uuid2 : JSString) :
  let run st :=
    fst (shuffleDeck F createDeck (setSeededRandom (createSeededRandom seed) st)) in
  run st1 = run st2 /\
  run st1 = fst (shuffleLoop F 51 createDeck (createSeededRandom seed)) /\
  length (run st1) = 52%nat /\
  (seed <> [] ->
   startGame F (Some seed) uuid1 st1 = startGame F (Some seed) uuid2 st2 /\
   startGame F (Some seed) uuid1 st1 = sessionOfSeed F seed).
Proof.
  intros run. unfold run. clear run.
  rewrite !shuffleDeck_eq. cbn [fst setSeededRandom seededRandom].
  split; [reflexivity|]. split; [reflexivity|].
  split; [rewrite shuffleLoop_length; reflexivity|].
  intros Hne. rewrite !startGame_sessionOfSeed.
  destruct seed; [contradiction|]. split; reflexivity.
Qed.

Lemma shuffle_deterministic_witness :
  startGame RealNumber (Some seed_test1) [] exhaustedSession
  = startGame RealNumber (Some seed_test1) [49] comboSession.
Proof.
  refine (proj1 (proj2 (proj2 (proj2
    (shuffle_deterministic RealNumber seed_test1 exhaustedSession comboSession [] [49]))) _)).
  discriminate.
Defined.

(** ** The formulas of the generator and of the shuffle *)






(** In binary64 the difference x - floor(x) is rounded, and can be 1: so it
    is for x = -2^-70, whose floor is -1. That the outputs of the generator
    stay below 1 in binary64 thus rests on the values that [Math.sin] takes
    at the hashes, which are not modelled; the range is stated of the exact
    fraction. *)
Lemma binary64_difference_rounds : PrimFloat.sub (-0x1p-70)%float (-1)%float = 1%float.
Proof. reflexivity. Qed.



(** ** Conservation of the cards *)

Lemma all_cards (c : Card) : c ∈ createDeck.
Proof.
  destruct c as [s r]. apply list_elem_of_In.
  destruct s, r; vm_compute; tauto.
Qed.

Lemma createDeck_NoDup : NoDup createDeck.
Proof. apply (bool_decide_unpack _). vm_compute. exact I. Qed.

Lemma cardsOnGrid_clear1 (g : list (option Card)) (i : nat) :
  cardsOnGrid (<[i := None]> g) `sublist_of` cardsOnGrid g.
Proof.
  revert i. induction g as [|cell g IH]; intros i; [reflexivity|].
  destruct i as [|i]; cbn.
  - destruct cell; cbn; [apply sublist_cons|]; reflexivity.
  - destruct cell; cbn; [apply sublist_skip|]; apply IH.
Qed.

Lemma cardsOnGrid_clear (cs : list nat) (g : list (option Card)) :
  cardsOnGrid (foldl (fun g index => <[index := None]> g) g cs) `sublist_of` cardsOnGrid g.
Proof.
  revert g. induction cs as [|c cs IH]; intros g; cbn; [reflexivity|].
  etrans; [apply IH|apply cardsOnGrid_clear1].
Qed.

Lemma cardsOnGrid_place (g : list (option Card)) (i : nat) (c : Card) :
  g !! i = Some None -> cardsOnGrid (<[i := Some c]> g) ≡ₚ c :: cardsOnGrid g.
Proof.
  revert i. induction g as [|cell g IH]; intros i H; [discriminate|].
  destruct i as [|i]; cbn in *.
  - simplify_eq. reflexivity.
  - destruct cell as [c'|]; cbn; rewrite (IH i H); [apply Permutation_swap|reflexivity].
Qed.

Lemma deck_split (d : list Card) : removelast d ++ option_list (last d) = d.
Proof.
  induction d as [|c d IH]; [reflexivity|].
  destruct d as [|c' d]; [reflexivity|].
  change (c :: (removelast (c' :: d) ++ option_list (last (c' :: d))) = c :: c' :: d).
  rewrite IH. reflexivity.
Qed.

Lemma submseteq_NoDup (l k : list Card) : l ⊆+ k -> NoDup k -> NoDup l.
Proof.
  intros Hs Hk. apply submseteq_Permutation in Hs as [k' Hk'].
  rewrite Hk' in Hk. apply NoDup_app in Hk as (H & _). exact H.
Qed.

Lemma submseteq_elem (l k : list Card) (c : Card) : l ⊆+ k -> c ∈ l -> c ∈ k.
Proof.
  intros Hs Hc. apply submseteq_Permutation in Hs as [k' Hk'].
  rewrite Hk'. apply elem_of_app. left. exact Hc.
Qed.

(** What an effective placement does to the deck, the hand and the grid. *)
Lemma placeCard_cards (index : nat) (st : Session) (c : Card) :
  grid st !! index = Some None -> currentCard st = Some c ->
  let st' := placeCard index st in
  deck st' = removelast (deck st) /\
  currentCard st' = last (deck st) /\
  length (grid st') = length (grid st) /\
  cardsOnGrid (grid st') ⊆+ c :: cardsOnGrid (grid st).
Proof.
  intros Hcell Hc. cbn zeta.
  assert (Hcell' : cellAt (grid st) index = None) by (unfold cellAt; rewrite Hcell; reflexivity).
  assert (Hcard : is_Some (currentCard st)) by (rewrite Hc; eauto).
  rewrite (placeCard_effective index st Hcell' Hcard).
  set (st1 := displayCurrentCard _ _).
  destruct (checkGameOver_fields st1) as (-> & _ & -> & _ & ->).
  unfold st1. cbn [displayCurrentCard setCurrentCard deck currentCard grid].
  destruct (drawCard_fields (afterEvaluation index st)) as (-> & _ & _ & _ & _ & -> & ->).
  unfold afterEvaluation.
  set (st0 := setGrid (<[index:=currentCard st]> (grid st)) st).
  destruct (checkPatterns_fields st0) as (-> & _).
  rewrite checkPatterns_length, checkPatterns_grid.
  cbn [st0 setGrid deck grid]. rewrite length_insert.
  repeat split.
  rewrite <- (cardsOnGrid_place (grid st) index c Hcell), <- Hc.
  apply sublist_submseteq, cardsOnGrid_clear.
Qed.

Lemma cardsInPlay_placeCard (index : nat) (st : Session) (c : Card) :
  grid st !! index = Some None -> currentCard st = Some c ->
  cardsInPlay (placeCard index st) ⊆+ cardsInPlay st.
Proof.
  intros Hcell Hc.
  destruct (placeCard_cards index st c Hcell Hc) as (Hd & Hh & _ & Hg).
  unfold cardsInPlay, inHand. rewrite Hd, Hh, Hc, app_assoc, deck_split.
  cbn [option_list app]. apply submseteq_skips_l. exact Hg.
Qed.

(** One click: nothing changes, or the placement above takes place. *)
Lemma onClick_cases (index : nat) (st : Session) :
  (index < length (grid st))%nat ->
  onClick index st = st \/
  exists c, grid st !! index = Some None /\ currentCard st = Some c /\
            gameOver st = false /\ onClick index st = placeCard index st.
Proof.
  intros Hi. unfold onClick.
  destruct (gameOver st) eqn:Hg; [left; reflexivity|].
  destruct (lookup_lt_is_Some_2 _ _ Hi) as [cell Hcell].
  unfold cellAt. rewrite Hcell. cbn [mjoin option_join negb andb].
  destruct cell as [c'|].
  - rewrite (bool_decide_eq_true_2 (is_Some (Some c'))) by eauto. left. reflexivity.
  - rewrite (bool_decide_eq_false_2 (is_Some None)) by (intros [? ?]; discriminate).
    destruct (currentCard st) as [c|] eqn:Hc.
    + rewrite (bool_decide_eq_true_2 (is_Some (Some c))) by eauto.
      right. exists c. auto.
    + rewrite (bool_decide_eq_false_2 (is_Some None)) by (intros [? ?]; discriminate).
      left. reflexivity.
Qed.

Lemma onClick_conserved (index : nat) (st : Session) :
  (index < 9)%nat -> conserved st ->
  conserved (onClick index st) /\
  deck (onClick index st) `prefix_of` deck st /\
  cardsInPlay (onClick index st) ⊆+ cardsInPlay st.
Proof.
  intros Hi [Hlen Hnd]. rewrite <- Hlen in Hi.
  destruct (onClick_cases index st Hi) as [->|(c & Hcell & Hc & _ & ->)].
  - split; [split; assumption|]. split; reflexivity.
  - pose proof (cardsInPlay_placeCard index st c Hcell Hc) as Hsub.
    destruct (placeCard_cards index st c Hcell Hc) as (Hd & _ & Hl & _).
    split; [split|split].
    + rewrite Hl. exact Hlen.
    + exact (submseteq_NoDup _ _ Hsub Hnd).
    + rewrite Hd. exists (option_list (last (deck st))). symmetry. apply deck_split.
    + exact Hsub.
Qed.

Lemma clicks_conserved (indices : list nat) (st : Session) :
  Forall (fun index => index < 9)%nat indices -> conserved st ->
  conserved (clicks indices st) /\
  deck (clicks indices st) `prefix_of` deck st /\
  cardsInPlay (clicks indices st) ⊆+ cardsInPlay st.
Proof.
  unfold clicks. revert st. induction indices as [|i indices IH]; intros st Hall Hst; cbn.
  - split; [assumption|]. split; reflexivity.
  - inversion Hall as [|? ? Hi Hrest]; subst.
    destruct (onClick_conserved i st Hi Hst) as (H1 & H2 & H3).
    destruct (IH (onClick i st) Hrest H1) as (H1' & H2' & H3').
    split; [assumption|]. split; etrans; eassumption.
Qed.

Lemma elem_of_cleared (st : Session) (c : Card) : c ∈ cleared st <-> c ∉ cardsInPlay st.
Proof.
  unfold cleared. rewrite list_elem_of_filter. pose proof (all_cards c). tauto.
Qed.

Lemma conserved_exactlyOne (st : Session) (c : Card) :
  conserved st ->
  exactlyOne (c ∈ deck st) (c ∈ inHand st) (c ∈ cardsOnGrid (grid st)) (c ∈ cleared st).
Proof.
  intros [_ Hnd]. unfold exactlyOne. rewrite elem_of_cleared.
  unfold cardsInPlay in *. rewrite !elem_of_app.
  apply NoDup_app in Hnd as (_ & Hdisj1 & Hnd). apply NoDup_app in Hnd as (_ & Hdisj2 & _).
  specialize (Hdisj1 c). specialize (Hdisj2 c). rewrite elem_of_app in Hdisj1.
  destruct (decide (c ∈ deck st)), (decide (c ∈ inHand st)),
    (decide (c ∈ cardsOnGrid (grid st))); tauto.
Qed.

Lemma sessionOfSeed_conserved (F : Number) (seed : JSString) :
  conserved (sessionOfSeed F seed) /\
  deck (sessionOfSeed F seed) ++ inHand (sessionOfSeed F seed) ≡ₚ createDeck /\
  length (deck (sessionOfSeed F seed)) = 51%nat /\
  is_Some (currentCard (sessionOfSeed F seed)) /\
  cleared (sessionOfSeed F seed) = [].
Proof.
  set (shuffled := fst (shuffleLoop F 51 createDeck (createSeededRandom seed))).
  assert (HP : shuffled ≡ₚ createDeck) by apply shuffleLoop_Permutation.
  assert (Hlen : length shuffled = 52%nat)
    by (unfold shuffled; rewrite shuffleLoop_length; reflexivity).
  assert (Hsplit : removelast shuffled ++ option_list (last shuffled) = shuffled)
    by apply deck_split.
  assert (Hplay : cardsInPlay (sessionOfSeed F seed) = shuffled).
  { unfold cardsInPlay, inHand, sessionOfSeed. cbn [deck grid currentCard].
    fold shuffled. change (cardsOnGrid (replicate 9 None)) with (@nil Card).
    rewrite app_nil_r. exact Hsplit. }
  assert (Hlast : is_Some (last shuffled)).
  { destruct (last shuffled) eqn:E; [eauto|]. apply last_None in E. rewrite E in Hlen.
    discriminate. }
  split; [|split; [|split; [|split]]].
  - split; [reflexivity|]. rewrite Hplay. rewrite HP. apply createDeck_NoDup.
  - unfold inHand, sessionOfSeed. cbn [deck currentCard]. fold shuffled.
    rewrite Hsplit. exact HP.
  - change (length (removelast shuffled) = 51%nat). clearbody shuffled.
    destruct Hlast as [c Hc]. rewrite Hc in Hsplit.
    apply (f_equal length) in Hsplit. rewrite length_app, Hlen in Hsplit.
    cbn in Hsplit. lia.
  - exact Hlast.
  - apply elem_of_nil_inv. intros c Hcl. apply elem_of_cleared in Hcl. apply Hcl.
    rewrite Hplay. rewrite HP. apply all_cards.
Qed.

Lemma cleared_mono (st st' : Session) (c : Card) :
  cardsInPlay st' ⊆+ cardsInPlay st -> c ∈ cleared st -> c ∈ cleared st'.
Proof.
  rewrite !elem_of_cleared. intros Hsub Hc Hc'. apply Hc.
  exact (submseteq_elem _ _ c Hsub Hc').
Qed.

(** C9. A game starts with the 52 distinct cards, 51 in the deck and one in
    hand, none cleared. Every click keeps the cards of the deck, the hand and
    the grid distinct, leaves of the deck a prefix of what it was, and keeps
    cleared cards cleared; so at any time a card is in exactly one of the
    deck, the hand, the grid and the cleared cards. *)
Theorem card_conservation (F : Number) (seed : option JSString) (uuid : JSString)
    (st0 st : Session) (indices : list nat) (index : nat) (c : Card) :
  NumberLaws F ->
  let start := startGame F seed uuid st0 in
  (conserved start /\ deck start ++ inHand start ≡ₚ createDeck /\
   length (deck start) = 51%nat /\ cleared start = []) /\
  (conserved st -> (index < 9)%nat ->
   let st' := onClick index st in
   conserved st' /\ deck st' `prefix_of` deck st /\ (c ∈ cleared st -> c ∈ cleared st')) /\
  (conserved st ->
   NoDup (deck st) /\ NoDup (cardsOnGrid (grid st)) /\
   exactlyOne (c ∈ deck st) (c ∈ inHand st) (c ∈ cardsOnGrid (grid st)) (c ∈ cleared st)) /\
  (Forall (fun i => i < 9)%nat indices ->
   conserved (clicks indices start) /\
   deck (clicks indices start) `prefix_of` deck start /\
   (c ∈ cleared start -> c ∈ cleared (clicks indices start))).
Proof.
  intros _ start. unfold start. rewrite startGame_sessionOfSeed.
  set (newSeed := match seed with Some (u :: s) => u :: s | _ => uuid end).
  destruct (sessionOfSeed_conserved F newSeed) as (Hc & Hp & Hl & _ & Hcl).
  split; [auto|]. split; [|split].
  - intros Hst Hi. destruct (onClick_conserved index st Hi Hst) as (H1 & H2 & H3).
    split; [assumption|]. split; [assumption|]. apply cleared_mono. assumption.
  - intros Hst. pose proof Hst as [_ Hnd]. unfold cardsInPlay in Hnd.
    apply NoDup_app in Hnd as (Hd & _ & Hnd). apply NoDup_app in Hnd as (_ & _ & Hg).
    split; [assumption|]. split; [assumption|]. apply conserved_exactlyOne. assumption.
  - intros Hall. destruct (clicks_conserved indices _ Hall Hc) as (H1 & H2 & H3).
    split; [assumption|]. split; [assumption|]. apply cleared_mono. assumption.
Qed.

Lemma card_conservation_witness :
  conserved (onClick 2 lastDrawSession) /\
  deck (onClick 2 lastDrawSession) `prefix_of` deck lastDrawSession.
Proof.
  destruct (proj1 (proj2 (card_conservation RealNumber (Some seed_test1) [] exhaustedSession
                            lastDrawSession [] 2 (mkCard club R9) RealNumber_laws)))
    as (H1 & H2 & _).
  - split; [reflexivity|]. apply (bool_decide_unpack _). vm_compute. exact I.
  - lia.
  - split; assumption.
Defined.

(** ** Ignored placements *)

Lemma sessionOfSeed_settled (F : Number) (seed : JSString) : settled (sessionOfSeed F seed).
Proof. split; [reflexivity|]. intros H. discriminate H. Qed.

Lemma onClick_settled (index : nat) (st : Session) :
  (index < 9)%nat -> settled st -> settled (onClick index st).
Proof.
  intros Hi [Hlen Hover]. rewrite <- Hlen in Hi.
  destruct (onClick_cases index st Hi) as [->|(c & Hcell & Hc & Hg & E)];
    [split; assumption|].
  assert (Hcell' : cellAt (grid st) index = None) by (unfold cellAt; rewrite Hcell; reflexivity).
  assert (Hcard : is_Some (currentCard st)) by (rewrite Hc; eauto).
  destruct (placement_gameOver_aux index st Hg Hcell' Hcard) as (_ & Hiff).
  destruct (placeCard_cards index st c Hcell Hc) as (_ & _ & Hl & _).
  rewrite E. split; [rewrite Hl; exact Hlen|].
  intros H. apply Hiff in H as [[Hf _]|[_ Hn]]; auto.
Qed.

Lemma clicks_settled (indices : list nat) (st : Session) :
  Forall (fun index => index < 9)%nat indices -> settled st -> settled (clicks indices st).
Proof.
  unfold clicks. revert st. induction indices as [|i indices IH]; intros st Hall Hst; cbn;
    [assumption|].
  inversion Hall as [|? ? Hi Hrest]; subst.
  apply IH; [assumption|]. apply onClick_settled; assumption.
Qed.

Lemma placeCard_after_gameOver (index : nat) (st : Session) :
  (index < 9)%nat -> settled st -> gameOver st = true -> placeCard index st = st.
Proof.
  intros Hi [Hlen Hover] Hg. rewrite <- Hlen in Hi. apply placeCard_ignored.
  destruct (Hover Hg) as [Hfull|Hnone]; [left|right; assumption].
  destruct (lookup_lt_is_Some_2 _ _ Hi) as [cell Hcell].
  unfold gridFull in Hfull. rewrite Forall_forall in Hfull.
  assert (Hne : cell <> None) by (apply Hfull; eapply list_elem_of_lookup_2; eassumption).
  unfold cellAt. rewrite Hcell. destruct cell; [eauto|congruence].
Qed.

(** C8. A click on an occupied cell, without a card in hand, or once the
    game is over changes nothing in the session (and the functions return a
    session, never an error). [placeCard] itself ignores the first two cases;
    the third is screened by the click handler, and in any session reached by
    play [placeCard] alone would ignore it too. *)
Theorem placement_ignored (F : Number) (seed : option JSString) (uuid : JSString)
    (st0 st : Session) (indices : list nat) (index : nat) :
  (is_Some (cellAt (grid st) index) \/ currentCard st = None \/ gameOver st = true ->
   onClick index st = st) /\
  (is_Some (cellAt (grid st) index) \/ currentCard st = None -> placeCard index st = st) /\
  (Forall (fun i => i < 9)%nat indices -> (index < 9)%nat ->
   let played := clicks indices (startGame F seed uuid st0) in
   gameOver played = true -> placeCard index played = played).
Proof.
  split; [apply onClick_ignored|]. split; [apply placeCard_ignored|].
  intros Hall Hi played Hg. apply placeCard_after_gameOver; [assumption| |assumption].
  unfold played. apply clicks_settled; [assumption|].
  rewrite startGame_sessionOfSeed. apply sessionOfSeed_settled.
Qed.

Lemma placement_ignored_witness :
  onClick 0 lastDrawSession = lastDrawSession /\
  placeCard 1 lastDrawSession = lastDrawSession /\
  onClick 2 (setGameOver true lastDrawSession) = setGameOver true lastDrawSession.
Proof.
  split; [|split].
  - refine (proj1 (placement_ignored RealNumber None [] lastDrawSession lastDrawSession [] 0) _).
    left. cbn. eauto.
  - refine (proj1 (proj2 (placement_ignored RealNumber None [] lastDrawSession
                            lastDrawSession [] 1)) _).
    left. cbn. eauto.
  - refine (proj1 (placement_ignored RealNumber None [] lastDrawSession
                     (setGameOver true lastDrawSession) [] 2) _).
    right. right. reflexivity.
Defined.

(** * Further properties of the code *)

Ltac list_mem := repeat first [apply list_elem_of_here | apply list_elem_of_further].

(** ** Classification of arbitrary groups *)

Lemma isFlush_list (cards : list Card) : isFlush cards = true <-> sameSuit cards.
Proof.
  unfold isFlush, sameSuit. rewrite forallb_forall. split.
  - intros H c c' Hc Hc'. destruct cards as [|c0 cards]; [apply elem_of_nil in Hc; done|].
    cbn in H. apply list_elem_of_In in Hc, Hc'.
    pose proof (H c Hc) as H1. pose proof (H c' Hc') as H2.
    apply bool_decide_eq_true in H1, H2. congruence.
  - intros H c Hc. apply bool_decide_eq_true.
    destruct cards as [|c0 cards]; [destruct Hc|]. cbn. f_equal.
    apply H; [apply list_elem_of_In; assumption|left].
Qed.

Lemma isThreeOfAKind_list (cards : list Card) : isThreeOfAKind cards = true <-> sameRank cards.
Proof.
  unfold isThreeOfAKind, sameRank. rewrite forallb_forall. split.
  - intros H c c' Hc Hc'. destruct cards as [|c0 cards]; [apply elem_of_nil in Hc; done|].
    cbn in H. apply list_elem_of_In in Hc, Hc'.
    pose proof (H c Hc) as H1. pose proof (H c' Hc') as H2.
    apply bool_decide_eq_true in H1, H2. congruence.
  - intros H c Hc. apply bool_decide_eq_true.
    destruct cards as [|c0 cards]; [destruct Hc|]. cbn. f_equal.
    apply H; [apply list_elem_of_In; assumption|left].
Qed.

Lemma bool_eq_iff (a b : bool) : (a = true <-> b = true) -> a = b.
Proof. destruct a, b; intuition congruence. Qed.

Lemma sorted_values_perm (cards cards' : list Card) :
  cards ≡ₚ cards' -> sorted_values cards = sorted_values cards'.
Proof.
  intros HP. unfold sorted_values. apply (Sorted_unique Z.le).
  - apply Sorted_merge_sort; apply _.
  - apply Sorted_merge_sort; apply _.
  - rewrite !merge_sort_Permutation, HP. reflexivity.
Qed.

(** X1. The class of a group of cards does not depend on the order in which
    its cards are listed. *)
Theorem getPatternType_Permutation (cards cards' : list Card) :
  cards ≡ₚ cards' -> getPatternType cards = getPatternType cards'.
Proof.
  intros HP. rewrite !getPatternType_cases.
  assert (E1 : isFlush cards = isFlush cards').
  { apply bool_eq_iff. rewrite !isFlush_list. unfold sameSuit.
    split; intros H c c' Hc Hc'; apply H; (rewrite HP || rewrite <- HP); assumption. }
  assert (E2 : isThreeOfAKind cards = isThreeOfAKind cards').
  { apply bool_eq_iff. rewrite !isThreeOfAKind_list. unfold sameRank.
    split; intros H c c' Hc Hc'; apply H; (rewrite HP || rewrite <- HP); assumption. }
  assert (E3 : isStraight cards = isStraight cards').
  { unfold isStraight. rewrite (sorted_values_perm _ _ HP). reflexivity. }
  rewrite E1, E2, E3. reflexivity.
Qed.

Lemma getPatternType_Permutation_witness :
  getPatternType [mkCard heart K; mkCard heart A; mkCard heart Q]
  = getPatternType [mkCard heart A; mkCard heart Q; mkCard heart K].
Proof.
  apply getPatternType_Permutation.
  etrans; [apply Permutation_swap|]. apply Permutation_skip, Permutation_swap.
Defined.

Lemma isStraight_short (cards : list Card) :
  (length cards < 3)%nat -> isStraight cards = false.
Proof.
  intros Hlen. unfold isStraight, is_value, is_succ_of.
  assert (Hl : (length (sorted_values cards) < 3)%nat).
  { unfold sorted_values. rewrite merge_sort_Permutation, length_fmap. exact Hlen. }
  assert (E : sorted_values cards !! 2%nat = None) by (apply lookup_ge_None; lia).
  rewrite E. rewrite (bool_decide_eq_false_2 (None = Some 13)) by discriminate.
  rewrite (bool_decide_eq_false_2 (None = Some 3)) by discriminate.
  rewrite !andb_false_r. reflexivity.
Qed.

(** X2. Fewer than three cards never form a straight, but they are a flush
    as soon as they share a suit, which the empty group and every single card
    do, and two cards of one rank and two suits are a threeOfAKind:
    [getPatternType] relies on its callers to pass three cards. *)
Theorem getPatternType_short (cards : list Card) (c c1 c2 : Card) :
  ((length cards < 3)%nat -> isStraight cards = false) /\
  ((length cards < 3)%nat -> sameSuit cards -> getPatternType cards = Some flush) /\
  getPatternType [] = Some flush /\
  getPatternType [c] = Some flush /\
  (rank c1 = rank c2 -> suit c1 <> suit c2 -> getPatternType [c1; c2] = Some threeOfAKind).
Proof.
  split; [apply isStraight_short|]. split; [|split; [reflexivity|split]].
  - intros Hlen Hs. rewrite getPatternType_cases, (isStraight_short _ Hlen).
    apply isFlush_list in Hs. rewrite Hs. reflexivity.
  - rewrite getPatternType_cases, (isStraight_short [c]) by (cbn; lia).
    assert (H : isFlush [c] = true) by (cbn; rewrite bool_decide_eq_true_2; reflexivity).
    rewrite H. reflexivity.
  - intros Hr Hs. rewrite getPatternType_cases, (isStraight_short [c1; c2]) by (cbn; lia).
    assert (H1 : isFlush [c1; c2] = false).
    { apply not_true_is_false. rewrite isFlush_list. intros H. apply Hs, H; list_mem. }
    assert (H2 : isThreeOfAKind [c1; c2] = true).
    { apply isThreeOfAKind_list. intros a b Ha Hb.
      apply elem_of_cons in Ha as [->|Ha]; apply elem_of_cons in Hb as [->|Hb];
        rewrite ?list_elem_of_singleton in *; subst; congruence. }
    rewrite H1, H2. reflexivity.
Qed.

Lemma getPatternType_short_witness :
  isStraight [mkCard heart A; mkCard heart R2] = false /\
  getPatternType [mkCard heart A; mkCard heart R7] = Some flush /\
  getPatternType [mkCard heart R7; mkCard club R7] = Some threeOfAKind.
Proof.
  destruct (getPatternType_short [mkCard heart A; mkCard heart R2] (mkCard heart A)
              (mkCard heart R7) (mkCard club R7)) as (H1 & _ & _ & _ & H5).
  destruct (getPatternType_short [mkCard heart A; mkCard heart R7] (mkCard heart A)
              (mkCard heart R7) (mkCard club R7)) as (_ & H2 & _).
  split; [apply H1; cbn; lia|]. split.
  - apply H2; [cbn; lia|]. apply isFlush_list. reflexivity.
  - apply H5; [reflexivity|discriminate].
Defined.

Lemma sameRank_not_straight (c1 c2 c3 : Card) :
  sameRank [c1; c2; c3] -> ~ straightValues [c1; c2; c3].
Proof.
  intros Hr (v0 & v1 & v2 & HP & H01 & H12 & H). cbn in HP.
  assert (E2 : rank c2 = rank c1) by (apply Hr; list_mem).
  assert (E3 : rank c3 = rank c1) by (apply Hr; list_mem).
  rewrite E2, E3 in HP. set (v := RANK_VALUES (rank c1)) in *.
  assert (Hin : forall x, x ∈ [v0; v1; v2] -> x = v).
  { intros x Hx. rewrite HP in Hx.
    repeat (apply elem_of_cons in Hx as [Hx|Hx]; [assumption|]).
    apply elem_of_nil in Hx. contradiction. }
  assert (v0 = v) by (apply Hin; list_mem).
  assert (v1 = v) by (apply Hin; list_mem).
  assert (v2 = v) by (apply Hin; list_mem).
  lia.
Qed.

(** X3. Three cards of one rank never form a straight, and if they are
    three different cards they are of three suits and so no flush: for the
    cards of a deck equal ranks always classify as threeOfAKind, the
    earlier tests never taking them. *)
Theorem threeOfAKind_distinct (c1 c2 c3 : Card) :
  (sameRank [c1; c2; c3] -> ~ straightValues [c1; c2; c3]) /\
  (NoDup [c1; c2; c3] ->
   (getPatternType [c1; c2; c3] = Some threeOfAKind <-> sameRank [c1; c2; c3])).
Proof.
  split; [apply sameRank_not_straight|].
  intros Hnd. rewrite getPatternType_cases. split.
  - destruct (isFlush [c1; c2; c3]), (isStraight [c1; c2; c3]),
      (isThreeOfAKind [c1; c2; c3]) eqn:E; try discriminate.
    intros _. apply isThreeOfAKind_sameRank. exact E.
  - intros Hr.
    assert (Hs : isStraight [c1; c2; c3] = false).
    { apply not_true_is_false. rewrite isStraight_straightValues by reflexivity.
      apply sameRank_not_straight, Hr. }
    assert (Hf : isFlush [c1; c2; c3] = false).
    { apply not_true_is_false. rewrite isFlush_sameSuit. intros Hsuit.
      apply NoDup_cons in Hnd as [Hnd _]. apply Hnd.
      assert (c1 = c2); [|subst; left].
      destruct c1 as [s1 r1], c2 as [s2 r2].
      assert (Es : s1 = s2) by (apply (Hsuit (mkCard s1 r1) (mkCard s2 r2)); list_mem).
      assert (Er : r1 = r2) by (apply (Hr (mkCard s1 r1) (mkCard s2 r2)); list_mem).
      congruence. }
    apply isThreeOfAKind_sameRank in Hr. rewrite Hs, Hf, Hr. reflexivity.
Qed.

Lemma threeOfAKind_distinct_witness :
  getPatternType [mkCard heart R7; mkCard club R7; mkCard spade R7] = Some threeOfAKind.
Proof.
  apply (proj2 (threeOfAKind_distinct (mkCard heart R7) (mkCard club R7) (mkCard spade R7))).
  - apply (bool_decide_unpack _). vm_compute. exact I.
  - apply isThreeOfAKind_sameRank. reflexivity.
Defined.

(** ** What a pass leaves behind *)

Lemma cardsOf_ext (g g' : list (option Card)) (p : list nat) :
  (forall i, i ∈ p -> cellAt g i = cellAt g' i) -> cardsOf g p = cardsOf g' p.
Proof.
  unfold cardsOf. induction p as [|i p IH]; intros H; [reflexivity|]. cbn.
  rewrite (H i) by left. rewrite IH; [reflexivity|].
  intros j Hj. apply H. right. assumption.
Qed.

Lemma fullyOccupied_ext (g g' : list (option Card)) (p : list nat) :
  (forall i, i ∈ p -> cellAt g i = cellAt g' i) -> fullyOccupied g p -> fullyOccupied g' p.
Proof.
  unfold fullyOccupied. rewrite !Forall_forall. intros H Hf i Hi.
  rewrite <- (H i Hi). auto.
Qed.

Lemma matches_ext (g g' : list (option Card)) (m : list nat * Pattern) :
  (forall i, i ∈ fst m -> cellAt g i = cellAt g' i) -> m ∈ matches g -> m ∈ matches g'.
Proof.
  intros H. rewrite !elem_of_matches. intros (Hp & Hf & Ht).
  split; [assumption|]. split; [exact (fullyOccupied_ext g g' _ H Hf)|].
  rewrite <- (cardsOf_ext g g' _ H). assumption.
Qed.

Lemma match_nonempty (g : list (option Card)) (m : list nat * Pattern) :
  m ∈ matches g -> exists i, i ∈ fst m.
Proof.
  intros Hm. apply elem_of_matches in Hm as (Hp & _).
  pose proof PATTERNS_length as Hl. rewrite Forall_forall in Hl. specialize (Hl _ Hp).
  destruct (fst m) as [|i p]; [discriminate|]. exists i. left.
Qed.

Lemma checkPatterns_quiet (st : Session) : matches (grid (checkPatterns st)) = [].
Proof.
  destruct (matches (grid (checkPatterns st))) as [|m ms] eqn:E; [reflexivity|exfalso].
  assert (Hm : m ∈ matches (grid (checkPatterns st))) by (rewrite E; left).
  assert (Hkeep : forall i, i ∈ fst m -> ~ inMatchedTriple (grid st) i).
  { intros i Hi Hin.
    pose proof (checkPatterns_cleared st i Hin) as Hc.
    apply elem_of_matches in Hm as (_ & Hf & _).
    destruct (fullyOccupied_lookup _ _ i Hf Hi) as [c Hc']. congruence. }
  assert (Hm' : m ∈ matches (grid st)).
  { apply (matches_ext (grid (checkPatterns st))); [|assumption].
    intros i Hi. unfold cellAt. rewrite checkPatterns_kept; auto. }
  destruct (match_nonempty _ _ Hm') as [i Hi].
  apply (Hkeep i Hi). exists m. auto.
Qed.

Lemma checkPatterns_idem (st : Session) : checkPatterns (checkPatterns st) = checkPatterns st.
Proof.
  unfold checkPatterns at 1.
  rewrite validPatternsOf_length, checkPatterns_quiet. reflexivity.
Qed.

Lemma placeCard_grid (index : nat) (st : Session) :
  cellAt (grid st) index = None -> is_Some (currentCard st) ->
  grid (placeCard index st) = grid (afterEvaluation index st).
Proof.
  intros Hcell Hcard. rewrite (placeCard_effective index st Hcell Hcard).
  set (st1 := displayCurrentCard _ _).
  destruct (checkGameOver_fields st1) as (-> & _).
  unfold st1. cbn [displayCurrentCard setCurrentCard grid].
  destruct (drawCard_fields (afterEvaluation index st)) as (-> & _). reflexivity.
Qed.

Lemma onClick_quiet (index : nat) (st : Session) :
  (index < length (grid st))%nat -> quiet st -> quiet (onClick index st).
Proof.
  intros Hi Hq. destruct (onClick_cases index st Hi) as [->|(c & Hcell & Hc & _ & ->)];
    [assumption|].
  unfold quiet. rewrite placeCard_grid.
  - apply checkPatterns_quiet.
  - unfold cellAt. rewrite Hcell. reflexivity.
  - rewrite Hc. eauto.
Qed.

Lemma onClick_grid_length (index : nat) (st : Session) :
  (index < length (grid st))%nat -> length (grid (onClick index st)) = length (grid st).
Proof.
  intros Hi. destruct (onClick_cases index st Hi) as [->|(c & Hcell & Hc & _ & ->)];
    [reflexivity|].
  destruct (placeCard_cards index st c Hcell Hc) as (_ & _ & Hl & _). exact Hl.
Qed.

Lemma clicks_quiet (indices : list nat) (st : Session) :
  Forall (fun index => index < 9)%nat indices -> length (grid st) = 9%nat -> quiet st ->
  quiet (clicks indices st) /\ length (grid (clicks indices st)) = 9%nat.
Proof.
  unfold clicks. revert st. induction indices as [|i indices IH]; intros st Hall Hlen Hq; cbn;
    [auto|].
  inversion Hall as [|? ? Hi Hrest]; subst. rewrite <- Hlen in Hi.
  apply IH; [assumption| |].
  - rewrite onClick_grid_length; assumption.
  - apply onClick_quiet; assumption.
Qed.

(** X4. An evaluation pass leaves no match on the grid: a second pass would
    find nothing, [hasValidPatterns] is false right after a pass, and so no
    session reached by play from a start has a match on its grid. *)
Theorem pass_leaves_no_match (F : Number) (seed : option JSString) (uuid : JSString)
    (st0 st : Session) (indices : list nat) :
  matches (grid (checkPatterns st)) = [] /\
  checkPatterns (checkPatterns st) = checkPatterns st /\
  hasValidPatterns (checkPatterns st) = false /\
  (Forall (fun index => index < 9)%nat indices ->
   matches (grid (clicks indices (startGame F seed uuid st0))) = []).
Proof.
  split; [apply checkPatterns_quiet|]. split; [apply checkPatterns_idem|]. split.
  - apply not_true_is_false. rewrite hasValidPatterns_matches, checkPatterns_quiet. auto.
  - intros Hall. apply clicks_quiet; [assumption| |];
      rewrite startGame_sessionOfSeed; reflexivity.
Qed.

Lemma pass_leaves_no_match_witness :
  matches (grid (clicks [0; 4; 4; 8]%nat (startGame ZeroNumber (Some seed_test1) [] comboSession)))
  = [].
Proof.
  refine (proj2 (proj2 (proj2 (pass_leaves_no_match ZeroNumber (Some seed_test1) []
                                 comboSession comboSession [0; 4; 4; 8]%nat))) _).
  repeat constructor.
Defined.

(** ** The matches of a placement *)

Lemma placed_matches_contain (index : nat) (x : option Card) (g : list (option Card))
    (m : list nat * Pattern) :
  matches g = [] -> m ∈ matches (<[index := x]> g) -> index ∈ fst m.
Proof.
  intros Hq Hm. destruct (decide (index ∈ fst m)) as [|Hn]; [assumption|exfalso].
  assert (Hm' : m ∈ matches g).
  { apply (matches_ext (<[index := x]> g)); [|assumption].
    intros i Hi. unfold cellAt. rewrite list_lookup_insert_ne; [reflexivity|].
    intros ->. contradiction. }
  rewrite Hq in Hm'. apply elem_of_nil in Hm'. assumption.
Qed.

Lemma matches_through (g : list (option Card)) (index : nat) :
  (forall m, m ∈ matches g -> index ∈ fst m) ->
  (length (matches g) <= length (filter (fun p => index ∈ p) PATTERNS))%nat.
Proof.
  unfold matches. generalize PATTERNS.
  induction l as [|p ps IH]; intros H; [reflexivity|].
  cbn [omap list_omap] in *. rewrite filter_cons.
  destruct (decide (fullyOccupied g p)) as [Hf|Hf].
  - destruct (getPatternType (cardsOf g p)) as [t|] eqn:Et; cbn [fmap option_fmap option_map] in *.
    + rewrite decide_True by (apply (H (p, t)); left). cbn.
      apply le_n_S, IH. intros m Hm. apply H. right. assumption.
    + specialize (IH H). destruct (decide (index ∈ p)); cbn; lia.
  - specialize (IH H). destruct (decide (index ∈ p)); cbn; lia.
Qed.

Lemma triples_through (index : nat) :
  (length (filter (fun p => index ∈ p) PATTERNS) <= 4)%nat.
Proof.
  do 9 (destruct index as [|index]; [vm_compute; lia|]). vm_compute. lia.
Qed.

Lemma base_points_bound (ms : list (list nat * Pattern)) :
  50 * Z.of_nat (length ms) <= sumZ ((fun m => SCORE_VALUES (snd m)) <$> ms)
  <= 200 * Z.of_nat (length ms).
Proof.
  unfold sumZ. induction ms as [|[p t] ms IH]; [cbn; lia|].
  cbn [fmap list_fmap foldr length snd]. destruct t; cbn [SCORE_VALUES]; lia.
Qed.

(** X5. When the grid had no match before a card is put down, every match
    found afterwards runs through the cell of that card; there are at most
    four of them, so the cap of the multiplier lookup is never exceeded, and
    a placement scores between 0 and 6400 points. *)
Theorem placement_matches (index : nat) (st : Session) :
  matches (grid st) = [] ->
  let g1 := <[index := currentCard st]> (grid st) in
  (forall m, m ∈ matches g1 -> index ∈ fst m) /\
  (length (matches g1) <= 4)%nat /\
  Z.min (Z.of_nat (length (matches g1))) 4 = Z.of_nat (length (matches g1)) /\
  0 <= totalPointsOf g1 <= 6400.
Proof.
  intros Hq g1.
  assert (H1 : forall m, m ∈ matches g1 -> index ∈ fst m)
    by (intros m; apply placed_matches_contain; assumption).
  assert (H2 : (length (matches g1) <= 4)%nat).
  { etrans; [apply matches_through, H1|apply triples_through]. }
  split; [assumption|]. split; [assumption|]. split; [lia|].
  unfold totalPointsOf. pose proof (base_points_bound (matches g1)) as Hb.
  destruct (length (matches g1)) as [|[|[|[|[|n]]]]]; cbn [comboMultiplier] in *; lia.
Qed.

Lemma placement_matches_witness :
  (length (matches (<[4%nat := currentCard comboSession]> (grid comboSession))) <= 4)%nat.
Proof.
  refine (proj1 (proj2 (placement_matches 4 comboSession _))).
  reflexivity.
Defined.

(** ** The end of the game, and before *)

Lemma onClick_accepts (index : nat) (st : Session) :
  onClick index st = if accepts index st then placeCard index st else st.
Proof. reflexivity. Qed.

Lemma accepts_true (index : nat) (st : Session) :
  accepts index st = true <->
  gameOver st = false /\ cellAt (grid st) index = None /\ is_Some (currentCard st).
Proof.
  unfold accepts. rewrite !andb_true_iff, !negb_true_iff, bool_decide_eq_false,
    bool_decide_eq_true. split.
  - intros [[Hg Hc] Hh]. repeat split; try assumption.
    destruct (cellAt (grid st) index); [exfalso; apply Hc; eauto|reflexivity].
  - intros (Hg & Hc & Hh). repeat split; try assumption.
    rewrite Hc. intros [? ?]; discriminate.
Qed.

Lemma placeCard_cardsLeft (index : nat) (st : Session) (c : Card) :
  grid st !! index = Some None -> currentCard st = Some c ->
  S (cardsLeft (placeCard index st)) = cardsLeft st.
Proof.
  intros Hcell Hc. destruct (placeCard_cards index st c Hcell Hc) as (Hd & Hh & _).
  unfold cardsLeft, inHand. rewrite Hd, Hh, Hc, <- length_app, deck_split. cbn. lia.
Qed.

Lemma placed_grid_full (index : nat) (st : Session) :
  let g1 := <[index := currentCard st]> (grid st) in
  gridFull (grid (afterEvaluation index st)) <-> gridFull g1 /\ matches g1 = [].
Proof.
  cbn zeta. unfold afterEvaluation.
  set (st1 := setGrid (<[index:=currentCard st]> (grid st)) st).
  change (<[index:=currentCard st]> (grid st)) with (grid st1).
  split.
  - intros Hfull.
    destruct (matches (grid st1)) as [|m ms] eqn:E.
    + split; [|reflexivity].
      unfold checkPatterns in Hfull. rewrite validPatternsOf_length, E in Hfull. exact Hfull.
    + exfalso. assert (Hm : m ∈ matches (grid st1)) by (rewrite E; left).
      destruct (match_nonempty _ _ Hm) as [i Hi].
      assert (Hin : inMatchedTriple (grid st1) i) by (exists m; auto).
      pose proof (checkPatterns_cleared st1 i Hin) as Hc.
      unfold gridFull in Hfull. rewrite Forall_forall in Hfull.
      apply (Hfull None); [|reflexivity]. eapply list_elem_of_lookup_2. exact Hc.
  - intros [Hfull Hq]. unfold checkPatterns. rewrite validPatternsOf_length, Hq. exact Hfull.
Qed.

(** X6. A placement that the click handler accepts ends the game exactly
    when it fills the grid without completing a triple, or when the deck was
    already empty; the test of [hasValidPatterns] in [checkGameOver] is then
    always false. *)
Theorem placement_ends_game (index : nat) (st : Session) :
  (index < length (grid st))%nat -> accepts index st = true ->
  let g1 := <[index := currentCard st]> (grid st) in
  let st' := onClick index st in
  hasValidPatterns st' = false /\
  (gameOver st' = true <-> (gridFull g1 /\ matches g1 = []) \/ deck st = []).
Proof.
  intros Hi Hacc g1 st'. unfold st'. rewrite onClick_accepts, Hacc.
  apply accepts_true in Hacc as (Hg & Hcell & Hcard).
  assert (Hgrid := placeCard_grid index st Hcell Hcard).
  assert (Hq : matches (grid (placeCard index st)) = []).
  { rewrite Hgrid. apply checkPatterns_quiet. }
  split.
  { apply not_true_is_false. rewrite hasValidPatterns_matches, Hq. auto. }
  destruct Hcard as [c Hc].
  assert (Hcell' : grid st !! index = Some None).
  { destruct (lookup_lt_is_Some_2 _ _ Hi) as [cell E]. unfold cellAt in Hcell.
    rewrite E in *. cbn in Hcell. subst. reflexivity. }
  destruct (placeCard_cards index st c Hcell' Hc) as (Hd & Hh & _).
  rewrite (placeCard_gameOver_iff index st Hcell ltac:(rewrite Hc; eauto)), Hg.
  unfold gameOverCondition. rewrite Hq, Hgrid, placed_grid_full, Hd, Hh.
  fold g1. split.
  - intros [?|[[[H1 H2] _]|[_ H]]]; [discriminate|left; auto|right].
    apply last_None. assumption.
  - intros [[H1 H2]|H]; right; [left; auto|right].
    rewrite H. split; reflexivity.
Qed.

Lemma placement_ends_game_witness :
  gameOver (onClick 8 deadEndSession) = true /\ gameOver (onClick 2 lastDrawSession) = false.
Proof.
  split.
  - apply (proj2 (placement_ends_game 8 deadEndSession ltac:(cbn; lia) eq_refl)).
    left. split; [|reflexivity]. repeat constructor; discriminate.
  - reflexivity.
Defined.

Lemma sessionOfSeed_inPlay (F : Number) (seed : JSString) : inPlay (sessionOfSeed F seed).
Proof.
  split; [reflexivity|]. split; [reflexivity|]. intros _. split.
  - apply sessionOfSeed_conserved.
  - intros H. unfold gridFull in H. cbn in H. inversion H; congruence.
Qed.

Lemma onClick_inPlay (index : nat) (st : Session) :
  (index < 9)%nat -> inPlay st -> inPlay (onClick index st).
Proof.
  intros Hi (Hlen & Hq & Hp). rewrite <- Hlen in Hi.
  split; [rewrite onClick_grid_length; assumption|].
  split; [apply onClick_quiet; assumption|].
  destruct (onClick_cases index st Hi) as [->|(c & Hcell & Hc & Hg & E)]; [assumption|].
  assert (Hcell' : cellAt (grid st) index = None) by (unfold cellAt; rewrite Hcell; reflexivity).
  assert (Hcard : is_Some (currentCard st)) by (rewrite Hc; eauto).
  rewrite E. intros Hnot.
  assert (Hcond : ~ gameOverCondition (placeCard index st)).
  { intros Hcond. rewrite (proj2 (placeCard_gameOver_iff index st Hcell' Hcard)) in Hnot;
      [discriminate|auto]. }
  destruct (placeCard_cards index st c Hcell Hc) as (Hd & Hh & _).
  assert (Hq' : matches (grid (placeCard index st)) = []).
  { rewrite (placeCard_grid index st Hcell' Hcard). apply checkPatterns_quiet. }
  split.
  - rewrite Hh. destruct (last (deck st)) eqn:El; [eauto|exfalso].
    apply Hcond. right. rewrite Hd, Hh. apply last_None in El. rewrite El. auto.
  - intros Hfull. apply Hcond. left. auto.
Qed.

Lemma clicks_inPlay (indices : list nat) (st : Session) :
  Forall (fun index => index < 9)%nat indices -> inPlay st -> inPlay (clicks indices st).
Proof.
  unfold clicks. revert st. induction indices as [|i indices IH]; intros st Hall Hst; cbn;
    [assumption|].
  inversion Hall as [|? ? Hi Hrest]; subst.
  apply IH; [assumption|]. apply onClick_inPlay; assumption.
Qed.

Lemma free_cell (g : list (option Card)) :
  ~ gridFull g -> exists index, g !! index = Some None.
Proof.
  intros H. unfold gridFull in H. apply not_Forall_Exists in H; [|apply _].
  apply Exists_exists in H as (cell & Hin & Hn). cbn in Hn.
  apply list_elem_of_lookup in Hin as [i Hi]. exists i.
  destruct cell; [exfalso; apply Hn; discriminate|assumption].
Qed.

(** X7. In a session reached by play the game is over exactly when no click
    on any of the nine cells changes the session: as long as it is not over
    there is a card in hand and a free cell to put it on, and putting it
    there takes one card out of the deck and the hand. *)
Theorem over_iff_stuck (F : Number) (seed : option JSString) (uuid : JSString)
    (st0 : Session) (indices : list nat) :
  Forall (fun index => index < 9)%nat indices ->
  let played := clicks indices (startGame F seed uuid st0) in
  (gameOver played = true <-> forall index, (index < 9)%nat -> onClick index played = played) /\
  (gameOver played = false ->
   exists index, (index < 9)%nat /\
     S (cardsLeft (onClick index played)) = cardsLeft played).
Proof.
  intros Hall played.
  assert (Hin : inPlay played).
  { apply clicks_inPlay; [assumption|]. rewrite startGame_sessionOfSeed.
    apply sessionOfSeed_inPlay. }
  assert (Hmove : gameOver played = false ->
            exists index, (index < 9)%nat /\
              S (cardsLeft (onClick index played)) = cardsLeft played).
  { intros Hg. destruct Hin as (Hlen & _ & Hp). destruct (Hp Hg) as [[c Hc] Hfree].
    destruct (free_cell _ Hfree) as [index Hcell]. exists index.
    split; [rewrite <- Hlen; eapply lookup_lt_Some; eassumption|].
    rewrite onClick_effective; [exact (placeCard_cardsLeft index played c Hcell Hc)|assumption| |].
    - unfold cellAt. rewrite Hcell. reflexivity.
    - rewrite Hc. eauto. }
  split; [|assumption]. split.
  - intros Hg index _. apply onClick_ignored. auto.
  - intros Hstuck. destruct (gameOver played) eqn:Hg; [reflexivity|exfalso].
    destruct (Hmove eq_refl) as (index & Hi & Hs). rewrite (Hstuck index Hi) in Hs. lia.
Qed.

Lemma over_iff_stuck_witness :
  exists index, (index < 9)%nat /\
    S (cardsLeft (onClick index (clicks [0; 4]%nat (startGame ZeroNumber None seed_test1 comboSession))))
    = cardsLeft (clicks [0; 4]%nat (startGame ZeroNumber None seed_test1 comboSession)).
Proof.
  refine (proj2 (over_iff_stuck ZeroNumber None seed_test1 comboSession [0; 4]%nat _) _).
  - repeat constructor.
  - reflexivity.
Defined.

(** ** Counting the cards *)

Lemma onClick_hand (index : nat) (st : Session) :
  (index < length (grid st))%nat ->
  (currentCard st = None -> deck st = []) ->
  currentCard (onClick index st) = None -> deck (onClick index st) = [].
Proof.
  intros Hi Hinv. destruct (onClick_cases index st Hi) as [->|(c & Hcell & Hc & _ & ->)];
    [assumption|].
  destruct (placeCard_cards index st c Hcell Hc) as (-> & -> & _).
  intros H. apply last_None in H. rewrite H. reflexivity.
Qed.

Lemma clicks_accounting (indices : list nat) (st : Session) :
  Forall (fun index => index < 9)%nat indices -> inPlay st ->
  (currentCard st = None -> deck st = []) ->
  (cardsLeft (clicks indices st) + accepted indices st)%nat = cardsLeft st /\
  (currentCard (clicks indices st) = None -> deck (clicks indices st) = []).
Proof.
  unfold clicks. revert st. induction indices as [|i indices IH]; intros st Hall Hst Hh;
    cbn [foldl accepted]; [split; [lia|assumption]|].
  inversion Hall as [|? ? Hi Hrest]; subst.
  pose proof Hst as (Hlen & _). rewrite <- Hlen in Hi.
  destruct (IH (onClick i st) Hrest (onClick_inPlay i st ltac:(lia) Hst)
              (onClick_hand i st Hi Hh)) as (IH1 & IH2).
  split; [|assumption].
  rewrite onClick_accepts in *. destruct (accepts i st) eqn:Ea; [|lia].
  apply accepts_true in Ea as (_ & Hcell & [c Hc]).
  assert (Hcell' : grid st !! i = Some None).
  { destruct (lookup_lt_is_Some_2 _ _ Hi) as [cell E]. unfold cellAt in Hcell.
    rewrite E in *. cbn in Hcell. subst. reflexivity. }
  pose proof (placeCard_cardsLeft i st c Hcell' Hc). lia.
Qed.

(** X8. A game starts with 52 cards to place, 51 in the deck and one in
    hand, and shows 50 remaining cards. Every accepted placement takes exactly
    one of them, so a game accepts at most 52 placements and is over after
    the 52nd; while a card is in hand the count shown is 50 minus the number
    of accepted placements, and without one it is 0. *)
Theorem cards_accounting (F : Number) (seed : option JSString) (uuid : JSString)
    (st0 : Session) (indices : list nat) :
  Forall (fun index => index < 9)%nat indices ->
  let start := startGame F seed uuid st0 in
  let played := clicks indices start in
  let n := accepted indices start in
  cardsLeft start = 52%nat /\ remainingCards start = 50 /\
  (cardsLeft played + n)%nat = 52%nat /\
  (n = 52%nat -> gameOver played = true) /\
  (is_Some (currentCard played) -> remainingCards played = 50 - Z.of_nat n) /\
  (currentCard played = None -> remainingCards played = 0 /\ gameOver played = true).
Proof.
  intros Hall start played n. unfold played, n, start. clear start played n.
  rewrite startGame_sessionOfSeed.
  set (newSeed := match seed with Some (u :: s) => u :: s | _ => uuid end).
  destruct (sessionOfSeed_conserved F newSeed) as (_ & _ & Hl & [c Hc] & _).
  assert (Hstart : cardsLeft (sessionOfSeed F newSeed) = 52%nat).
  { unfold cardsLeft, inHand. rewrite Hl, Hc. reflexivity. }
  assert (Hhand : currentCard (sessionOfSeed F newSeed) = None ->
                  deck (sessionOfSeed F newSeed) = []) by (rewrite Hc; discriminate).
  destruct (clicks_accounting indices _ Hall (sessionOfSeed_inPlay F newSeed) Hhand)
    as (Hacc & Hh).
  pose proof (clicks_inPlay indices _ Hall (sessionOfSeed_inPlay F newSeed)) as (_ & _ & Hp).
  set (played := clicks indices (sessionOfSeed F newSeed)) in *.
  set (n := accepted indices (sessionOfSeed F newSeed)) in *.
  rewrite Hstart in Hacc.
  assert (Hover : currentCard played = None -> gameOver played = true).
  { intros Hn. destruct (gameOver played) eqn:Hg; [reflexivity|].
    destruct (Hp Hg) as [[c' Hc'] _]. congruence. }
  split; [assumption|]. split; [unfold remainingCards; rewrite Hl, Hc; reflexivity|].
  split; [assumption|]. split; [|split].
  - intros Hn. apply Hover. unfold cardsLeft, inHand in Hacc.
    destruct (currentCard played); [cbn in Hacc; lia|reflexivity].
  - intros [c' Hc']. unfold remainingCards, cardsLeft, inHand in *. rewrite Hc' in *.
    cbn in Hacc. lia.
  - intros Hn. split; [|auto]. unfold remainingCards. rewrite (Hh Hn), Hn. reflexivity.
Qed.

Lemma cards_accounting_witness :
  (cardsLeft (clicks [0; 0; 4]%nat (startGame ZeroNumber None seed_test1 comboSession))
   + accepted [0; 0; 4]%nat (startGame ZeroNumber None seed_test1 comboSession))%nat = 52%nat.
Proof.
  refine (proj1 (proj2 (proj2 (cards_accounting ZeroNumber None seed_test1 comboSession
                                 [0; 0; 4]%nat _)))).
  repeat constructor.
Defined.

(** ** The score and the clearing record *)

Lemma processPatterns_log (vp : list (list nat * list Card)) (st : Session) :
  vp <> [] ->
  exists e, gameLog (processPatterns vp st) = e :: gameLog st /\
            entryConsistent e /\
            entryPoints e = score (processPatterns vp st) - score st.
Proof.
  intros Hne. rewrite processPatterns_score.
  unfold processPatterns, addToGameLog. cbn zeta.
  set (pwt := (fun pc : list nat * list Card => (fst pc, getPatternType (snd pc), snd pc)) <$> vp).
  set (details := (fun pt : list nat * option Pattern * list Card =>
                     mkDetail (snd (fst pt)) (scoreOf (snd (fst pt))) (snd pt)) <$> pwt).
  set (base := foldl (fun sum pt => sum + scoreOf (snd (fst pt))) 0 pwt).
  assert (Hlen : length details = length vp) by (unfold details, pwt; rewrite !length_fmap; reflexivity).
  assert (Hbase : base = sumZ (basePoints <$> details)).
  { unfold base, details. rewrite foldl_sum_fmap, <- list_fmap_compose. reflexivity. }
  rewrite lookupMultiplier_combo.
  destruct (1 <? Z.of_nat (length vp)) eqn:E1.
  - apply Z.ltb_lt in E1.
    exists (logMultiple (Z.of_nat (length vp))
              (if 4 <=? Z.of_nat (length vp) then 8
               else if Z.of_nat (length vp) =? 3 then 4 else 2)
              (base * comboMultiplier (length vp)) details).
    split; [destruct (2 <=? Z.of_nat (length vp)); reflexivity|].
    assert (Hm : (if 4 <=? Z.of_nat (length vp) then 8
                  else if Z.of_nat (length vp) =? 3 then 4 else 2)
                 = comboMultiplier (length vp)).
    { destruct (length vp) as [|[|[|[|k]]]]; try reflexivity; try lia.
      destruct (4 <=? Z.of_nat (S (S (S (S k))))) eqn:E4; [reflexivity|].
      apply Z.leb_gt in E4. lia. }
    split; [|cbn; lia].
    cbn. rewrite Hlen, Hm, Hbase. repeat split; lia.
  - apply Z.ltb_ge in E1.
    destruct vp as [|pc [|pc' vp]]; [contradiction| |cbn in E1; lia].
    exists (logSingle (details !! 0%nat)).
    split; [reflexivity|]. split; [cbn; eauto|].
    cbn. lia.
Qed.

Lemma checkPatterns_log (st : Session) :
  (matches (grid st) = [] /\ gameLog (checkPatterns st) = gameLog st /\
   score (checkPatterns st) = score st) \/
  (matches (grid st) <> [] /\
   exists e, gameLog (checkPatterns st) = e :: gameLog st /\ entryConsistent e /\
             entryPoints e = score (checkPatterns st) - score st).
Proof.
  unfold checkPatterns.
  destruct (0 <? length (validPatternsOf (grid st)))%nat eqn:E.
  - right. apply Nat.ltb_lt in E. split.
    + rewrite validPatternsOf_length in E. destruct (matches (grid st)); [cbn in E; lia|discriminate].
    + apply processPatterns_log. destruct (validPatternsOf (grid st)); [cbn in E; lia|discriminate].
  - left. apply Nat.ltb_ge in E. rewrite validPatternsOf_length in E.
    destruct (matches (grid st)); [auto|cbn in E; lia].
Qed.

Lemma base_points_divide (ms : list (list nat * Pattern)) :
  (50 | sumZ ((fun m => SCORE_VALUES (snd m)) <$> ms)).
Proof.
  unfold sumZ. induction ms as [|[p t] ms IH]; [apply Z.divide_0_r|].
  cbn [fmap list_fmap foldr snd]. apply Z.divide_add_r; [|exact IH].
  destruct t; cbn; [exists 1|exists 2|exists 2|exists 4]; reflexivity.
Qed.

Lemma totalPointsOf_bounds (g : list (option Card)) :
  0 <= totalPointsOf g /\ (50 | totalPointsOf g).
Proof.
  unfold totalPointsOf. pose proof (base_points_bound (matches g)) as Hb.
  assert (Hm : 1 <= comboMultiplier (length (matches g))).
  { destruct (length (matches g)) as [|[|[|[|k]]]]; cbn; lia. }
  split; [nia|]. apply Z.divide_mul_l, base_points_divide.
Qed.

Lemma placeCard_record (index : nat) (st : Session) :
  cellAt (grid st) index = None -> is_Some (currentCard st) ->
  let g1 := <[index := currentCard st]> (grid st) in
  score (placeCard index st) = score st + totalPointsOf g1 /\
  ((matches g1 = [] /\ gameLog (placeCard index st) = gameLog st /\
    score (placeCard index st) = score st) \/
   (matches g1 <> [] /\
    exists e, gameLog (placeCard index st) = e :: gameLog st /\ entryConsistent e /\
              entryPoints e = totalPointsOf g1)).
Proof.
  intros Hcell Hcard. cbn zeta. split; [apply placeCard_score; assumption|].
  pose proof (placeCard_score index st Hcell Hcard) as Hs.
  rewrite (placeCard_effective index st Hcell Hcard) in *.
  set (st1 := displayCurrentCard _ _) in *.
  destruct (checkGameOver_fields st1) as (_ & Es & _ & El & _). rewrite El, Es in *.
  unfold st1 in *. cbn [displayCurrentCard setCurrentCard gameLog score] in *.
  destruct (drawCard_fields (afterEvaluation index st)) as (_ & Es' & _ & El' & _).
  rewrite El', Es' in *. unfold afterEvaluation in *.
  set (st0 := setGrid (<[index:=currentCard st]> (grid st)) st) in *.
  destruct (checkPatterns_log st0) as [(Hm & Hl & Hsc)|(Hm & e & Hl & Hc & Hp)].
  - left. auto.
  - right. split; [assumption|]. exists e. split; [assumption|]. split; [assumption|].
    rewrite Hp, Hs. cbn. lia.
Qed.

Lemma onClick_recorded (index : nat) (st : Session) :
  (index < length (grid st))%nat -> recorded st ->
  recorded (onClick index st) /\ score st <= score (onClick index st).
Proof.
  intros Hi (Hs & H0 & H50 & Hall).
  destruct (onClick_cases index st Hi) as [->|(c & Hcell & Hc & _ & ->)];
    [split; [repeat split; assumption|lia]|].
  assert (Hcell' : cellAt (grid st) index = None) by (unfold cellAt; rewrite Hcell; reflexivity).
  assert (Hcard : is_Some (currentCard st)) by (rewrite Hc; eauto).
  destruct (placeCard_record index st Hcell' Hcard) as (Hsc & Hlog).
  destruct (totalPointsOf_bounds (<[index:=currentCard st]> (grid st))) as (Hp0 & Hp50).
  split; [|lia]. unfold recorded.
  destruct Hlog as [(_ & -> & ->)|(_ & e & -> & Hc' & Hp)].
  - repeat split; assumption.
  - rewrite Hsc. cbn [fmap list_fmap sumZ foldr]. fold (sumZ (entryPoints <$> gameLog st)).
    rewrite Hp, <- Hs. repeat split; [lia|lia|apply Z.divide_add_r; assumption|].
    constructor; assumption.
Qed.

Lemma clicks_recorded (indices : list nat) (st : Session) :
  Forall (fun index => index < 9)%nat indices -> length (grid st) = 9%nat -> recorded st ->
  recorded (clicks indices st) /\ length (grid (clicks indices st)) = 9%nat /\
  score st <= score (clicks indices st).
Proof.
  unfold clicks. revert st. induction indices as [|i indices IH]; intros st Hall Hlen Hst; cbn;
    [split; [assumption|split; [assumption|lia]]|].
  inversion Hall as [|? ? Hi Hrest]; subst. rewrite <- Hlen in Hi.
  destruct (onClick_recorded i st Hi Hst) as (H1 & H2).
  destruct (IH (onClick i st) Hrest) as (H3 & H4 & H5);
    [rewrite onClick_grid_length; assumption|assumption|].
  split; [assumption|]. split; [assumption|lia].
Qed.

Lemma sessionOfSeed_recorded (F : Number) (seed : JSString) : recorded (sessionOfSeed F seed).
Proof.
  unfold recorded. cbn. repeat split; [lia|apply Z.divide_0_r|constructor].
Qed.

(** X9. In every session reached by play the score is the sum of the points
    that the entries of the clearing record stand for; it is never negative,
    always a multiple of 50, and no click lowers it. *)
Theorem score_recorded (F : Number) (seed : option JSString) (uuid : JSString)
    (st0 : Session) (indices : list nat) (index : nat) :
  Forall (fun i => i < 9)%nat indices -> (index < 9)%nat ->
  let played := clicks indices (startGame F seed uuid st0) in
  score played = sumZ (entryPoints <$> gameLog played) /\
  0 <= score played /\ (50 | score played) /\
  score played <= score (onClick index played).
Proof.
  intros Hall Hi played. unfold played. clear played. rewrite startGame_sessionOfSeed.
  set (newSeed := match seed with Some (u :: s) => u :: s | _ => uuid end).
  destruct (clicks_recorded indices (sessionOfSeed F newSeed) Hall eq_refl
              (sessionOfSeed_recorded F newSeed)) as (Hr & Hlen & _).
  rewrite <- Hlen in Hi. destruct (onClick_recorded index _ Hi Hr) as (_ & Hmono).
  destruct Hr as (H1 & H2 & H3 & _). auto.
Qed.

Lemma score_recorded_witness :
  (50 | score (clicks [0; 1; 2]%nat (startGame ZeroNumber None seed_test1 comboSession))).
Proof.
  refine (proj1 (proj2 (proj2 (score_recorded ZeroNumber None seed_test1 comboSession
                                 [0; 1; 2]%nat 3 _ _)))).
  - repeat constructor.
  - lia.
Defined.

(** X10. A pass without a match leaves the clearing record as it is; a pass
    with matches puts exactly one entry in front, which stands for the points
    of the pass, and whose printed multiplier (2, 4 or 8) is the one applied
    to the sum of its patterns' base points, a single match being recorded
    with its base points. Every entry of a session reached by play is of that
    kind. *)
Theorem log_entries (F : Number) (seed : option JSString) (uuid : JSString)
    (st0 st : Session) (indices : list nat) :
  (matches (grid st) = [] -> gameLog (checkPatterns st) = gameLog st) /\
  (matches (grid st) <> [] ->
   exists e, gameLog (checkPatterns st) = e :: gameLog st /\ entryConsistent e /\
             entryPoints e = totalPointsOf (grid st)) /\
  (Forall (fun i => i < 9)%nat indices ->
   Forall entryConsistent (gameLog (clicks indices (startGame F seed uuid st0)))).
Proof.
  split; [|split].
  - intros Hm. destruct (checkPatterns_log st) as [(_ & Hl & _)|(Hne & _)]; [assumption|].
    contradiction.
  - intros Hm. destruct (checkPatterns_log st) as [(He & _)|(_ & e & Hl & Hc & Hp)];
      [contradiction|].
    exists e. split; [assumption|]. split; [assumption|].
    rewrite Hp, checkPatterns_score_eq. lia.
  - intros Hall. rewrite startGame_sessionOfSeed.
    set (newSeed := match seed with Some (u :: s) => u :: s | _ => uuid end).
    destruct (clicks_recorded indices (sessionOfSeed F newSeed) Hall eq_refl
                (sessionOfSeed_recorded F newSeed)) as ((_ & _ & _ & H) & _). exact H.
Qed.

Lemma log_entries_witness :
  exists e,
    gameLog (checkPatterns (setGrid (<[4%nat := currentCard comboSession]> (grid comboSession))
                                    comboSession))
    = e :: gameLog comboSession /\ entryConsistent e /\ entryPoints e = 400.
Proof.
  refine (proj1 (proj2 (log_entries ZeroNumber None [] comboSession
                          (setGrid (<[4%nat := currentCard comboSession]> (grid comboSession))
                                   comboSession) [])) _).
  discriminate.
Defined.

(** ** Drawing and dealing *)

Lemma onClick_dealt (index : nat) (st : Session) :
  (index < length (grid st))%nat ->
  deck (onClick index st) ++ inHand (onClick index st) `prefix_of` deck st ++ inHand st.
Proof.
  intros Hi. destruct (onClick_cases index st Hi) as [->|(c & Hcell & Hc & _ & ->)];
    [reflexivity|].
  destruct (placeCard_cards index st c Hcell Hc) as (Hd & Hh & _).
  unfold inHand. rewrite Hd, Hh, deck_split. apply prefix_app_r. reflexivity.
Qed.

Lemma clicks_dealt (indices : list nat) (st : Session) :
  Forall (fun index => index < 9)%nat indices -> length (grid st) = 9%nat ->
  deck (clicks indices st) ++ inHand (clicks indices st) `prefix_of` deck st ++ inHand st.
Proof.
  unfold clicks. revert st. induction indices as [|i indices IH]; intros st Hall Hlen; cbn;
    [reflexivity|].
  inversion Hall as [|? ? Hi Hrest]; subst. rewrite <- Hlen in Hi.
  etrans; [apply IH; [assumption|rewrite onClick_grid_length; assumption]|].
  apply onClick_dealt. assumption.
Qed.

(** X11. [drawCard] takes the last card of the deck, and on an empty deck
    returns no card and leaves the session alone; putting the drawn card back
    at the end gives the deck as it was. So the cards come to hand in the
    order of the shuffled deck read from its end: at any time the deck
    followed by the card in hand is a prefix of the shuffled deck, and an
    accepted placement brings the last card of the deck to hand. *)
Theorem dealing_order (F : Number) (seed : option JSString) (uuid : JSString)
    (st0 st : Session) (indices : list nat) (index : nat) :
  (deck st = [] -> drawCard st = (None, st)) /\
  deck (snd (drawCard st)) ++ option_list (fst (drawCard st)) = deck st /\
  (Forall (fun i => i < 9)%nat indices -> (index < 9)%nat ->
   let start := startGame F seed uuid st0 in
   let played := clicks indices start in
   deck played ++ inHand played `prefix_of` deck start ++ inHand start /\
   (accepts index played = true ->
    currentCard (onClick index played) = last (deck played) /\
    deck (onClick index played) = removelast (deck played))).
Proof.
  split; [intros H; unfold drawCard; rewrite H; reflexivity|].
  split; [rewrite drawCard_eq; apply deck_split|].
  intros Hall Hi start played. unfold played, start. clear start played.
  rewrite startGame_sessionOfSeed.
  set (newSeed := match seed with Some (u :: s) => u :: s | _ => uuid end).
  split; [apply clicks_dealt; [assumption|reflexivity]|].
  intros Hacc. rewrite onClick_accepts, Hacc.
  apply accepts_true in Hacc as (_ & Hcell & [c Hc]).
  destruct (clicks_inPlay indices _ Hall (sessionOfSeed_inPlay F newSeed)) as (Hlen & _).
  set (played := clicks indices (sessionOfSeed F newSeed)) in *.
  assert (Hcell' : grid played !! index = Some None).
  { destruct (lookup_lt_is_Some_2 (grid played) index ltac:(lia)) as [cell E].
    unfold cellAt in Hcell. rewrite E in *. cbn in Hcell. subst. reflexivity. }
  destruct (placeCard_cards index played c Hcell' Hc) as (Hd & Hh & _). auto.
Qed.

Lemma dealing_order_witness :
  deck (clicks [3; 5]%nat (startGame ZeroNumber None seed_test1 comboSession))
    ++ inHand (clicks [3; 5]%nat (startGame ZeroNumber None seed_test1 comboSession))
  `prefix_of`
  deck (startGame ZeroNumber None seed_test1 comboSession)
    ++ inHand (startGame ZeroNumber None seed_test1 comboSession).
Proof.
  refine (proj1 (proj2 (proj2 (dealing_order ZeroNumber None seed_test1 comboSession
                                 comboSession [3; 5]%nat 0)) _ _)).
  - repeat constructor.
  - lia.
Defined.

(** ** The shuffle of any deck *)

Lemma setSeededRandom_id (st : Session) : setSeededRandom (seededRandom st) st = st.
Proof. destruct st; reflexivity. Qed.

(** X12. [shuffleDeck] returns a rearrangement of the deck it is given, of
    the same length, and calls the generator once for each position but the
    first, so that the hash advances by the length minus one and nothing else
    of the session changes; a deck of at most one card comes back as it is
    without any call. *)
Theorem shuffleDeck_rearranges (F : Number) (deck : list Card) (st : Session) :
  NumberLaws F ->
  let shuffled := fst (shuffleDeck F deck st) in
  let st' := snd (shuffleDeck F deck st) in
  shuffled ≡ₚ deck /\ length shuffled = length deck /\
  st' = setSeededRandom (seededRandom st + Z.of_nat (length deck - 1)) st /\
  ((length deck <= 1)%nat -> shuffled = deck /\ st' = st).
Proof.
  intros _ shuffled st'. unfold shuffled, st'. clear shuffled st'.
  rewrite shuffleDeck_eq. cbn [fst snd].
  split; [apply shuffleLoop_Permutation|]. split; [apply shuffleLoop_length|].
  split; [reflexivity|]. intros Hlen.
  replace (length deck - 1)%nat with 0%nat by lia. cbn [shuffleLoop fst Z.of_nat].
  rewrite Z.add_0_r, setSeededRandom_id. auto.
Qed.

Lemma shuffleDeck_rearranges_witness :
  fst (shuffleDeck RealNumber createDeck comboSession) ≡ₚ createDeck.
Proof.
  exact (proj1 (shuffleDeck_rearranges RealNumber createDeck comboSession RealNumber_laws)).
Defined.

(** ** The first card *)

Lemma swap_lookup_other (l : list Card) (i k : nat) (j : Z) :
  k <> i -> k <> Z.to_nat j -> swap l i j !! k = l !! k.
Proof.
  intros Hi Hj. unfold swap. destruct (0 <=? j); [|reflexivity].
  destruct (l !! i), (l !! Z.to_nat j); try reflexivity.
  rewrite !list_lookup_insert_ne by congruence. reflexivity.
Qed.

Lemma swap_lookup_i (l : list Card) (i : nat) (j : Z) :
  (i < length l)%nat -> 0 <= j <= Z.of_nat i -> swap l i j !! i = l !! Z.to_nat j.
Proof.
  intros Hi Hj. destruct (swap_in_range l i j Hi Hj) as (x & y & Hx & Hy & ->).
  destruct (decide (i = Z.to_nat j)) as [E|E].
  - rewrite <- E in *. rewrite list_lookup_insert_eq; [congruence|].
    rewrite length_insert. assumption.
  - rewrite list_lookup_insert_ne by congruence.
    rewrite list_lookup_insert_eq by assumption. congruence.
Qed.

Lemma shuffleLoop_above (F : Number) (n k : nat) (l : list Card) (hash : Z) :
  NumberLaws F -> (n < k)%nat -> fst (shuffleLoop F n l hash) !! k = l !! k.
Proof.
  intros laws. revert l hash. induction n as [|n IH]; intros l hash Hk; [reflexivity|].
  cbn [shuffleLoop]. rewrite generator_call. cbn zeta.
  rewrite IH by lia.
  pose proof (swapIndex_range F hash (S n) laws) as Hj. unfold swapIndex in Hj.
  apply swap_lookup_other; lia.
Qed.

Lemma shuffleLoop_top (F : Number) (n : nat) (l : list Card) (hash : Z) :
  NumberLaws F -> (S n < length l)%nat ->
  fst (shuffleLoop F (S n) l hash) !! S n
  = l !! Z.to_nat (swapIndex F (sinFraction F hash) (S n)).
Proof.
  intros laws Hn. cbn [shuffleLoop]. rewrite generator_call. cbn zeta.
  rewrite shuffleLoop_above by (assumption || lia).
  pose proof (swapIndex_range F hash (S n) laws) as Hj.
  apply swap_lookup_i; assumption.
Qed.

Lemma first_card (F : Number) (seed : JSString) :
  NumberLaws F ->
  currentCard (sessionOfSeed F seed)
  = createDeck !! Z.to_nat (swapIndex F (sinFraction F (createSeededRandom seed)) 51).
Proof.
  intros laws. unfold sessionOfSeed. cbn [currentCard].
  rewrite last_lookup, shuffleLoop_length.
  change (Nat.pred (length createDeck)) with 51%nat.
  apply shuffleLoop_top; [assumption|]. cbn. lia.
Qed.

(** X13. The card in hand when a game starts is the card of the fresh deck
    at index floor(frac(sin(hash) x 10000) x 52), hash being the hash of the
    seed: the first exchange of the shuffle puts it last, and no later
    exchange reaches that position. Over the reals a seed of hash 0 therefore
    starts with the ace of hearts. *)
Theorem first_card_of_game (F : Number) (seed uuid : JSString) (st0 : Session) :
  (NumberLaws F -> seed <> [] ->
   currentCard (startGame F (Some seed) uuid st0)
   = createDeck !! Z.to_nat (swapIndex F (sinFraction F (createSeededRandom seed)) 51)) /\
  (createSeededRandom seed = 0 -> seed <> [] ->
   currentCard (startGame RealNumber (Some seed) uuid st0) = Some (mkCard heart A)).
Proof.
  split.
  - intros laws Hne. rewrite startGame_sessionOfSeed.
    destruct seed; [contradiction|]. apply first_card, laws.
  - intros Hh Hne. rewrite startGame_sessionOfSeed.
    destruct seed as [|u s]; [contradiction|].
    rewrite (first_card RealNumber (u :: s) RealNumber_laws), Hh.
    unfold swapIndex. rewrite sinFraction_real_0. cbn [RealNumber mul Math_floor of_int].
    rewrite Rmult_0_l, <- (Int_part_spec 0 0); [reflexivity|]. lra.
Qed.

Lemma first_card_of_game_witness :
  currentCard (startGame RealNumber (Some [0]) [] comboSession) = Some (mkCard heart A).
Proof.
  apply (proj2 (first_card_of_game RealNumber [0] [] comboSession)).
  - reflexivity.
  - discriminate.
Defined.

(** ** Seeds with the same hash *)

Lemma hash_two_steps (h a b : Z) :
  foldl spec_hash_step h [a; b] = ToInt32 (31 * (31 * h + a) + b).
Proof.
  cbn [foldl]. rewrite !(proj2 (hash_step _ _)).
  replace (31 * ToInt32 (31 * h + a) + b) with (ToInt32 (31 * h + a) * 31 + b) by lia.
  rewrite <- ToInt32_add_l, ToInt32_mul_l, ToInt32_add_l. f_equal. lia.
Qed.

Lemma sessionOfSeed_hash (F : Number) (seed1 seed2 : JSString) :
  createSeededRandom seed1 = createSeededRandom seed2 ->
  setCurrentSeed [] (sessionOfSeed F seed1) = setCurrentSeed [] (sessionOfSeed F seed2).
Proof. intros H. unfold sessionOfSeed. rewrite H. reflexivity. Qed.

(** X14. The game depends on the seed only through its hash: two seeds of
    equal hash start sessions that differ in the displayed seed alone. Such
    seeds exist in plenty, since raising one character by 1 and lowering the
    next by 31 leaves the hash as it is (seeds without surrogates). *)
Theorem seed_collisions (F : Number) (p s seed1 seed2 uuid1 uuid2 : JSString) (a b : Z)
    (st1 st2 : Session) :
  (createSeededRandom seed1 = createSeededRandom seed2 -> seed1 <> [] -> seed2 <> [] ->
   setCurrentSeed [] (startGame F (Some seed1) uuid1 st1)
   = setCurrentSeed [] (startGame F (Some seed2) uuid2 st2)) /\
  (Forall (fun u => isLeadSurrogate u = false) (p ++ [a; b] ++ s) ->
   Forall (fun u => isLeadSurrogate u = false) (p ++ [a + 1; b - 31] ++ s) ->
   createSeededRandom (p ++ [a; b] ++ s) = createSeededRandom (p ++ [a + 1; b - 31] ++ s)).
Proof.
  split.
  - intros H H1 H2. rewrite !startGame_sessionOfSeed.
    destruct seed1; [contradiction|]. destruct seed2; [contradiction|].
    apply sessionOfSeed_hash, H.
  - intros H1 H2. rewrite !createSeededRandom_fold.
    rewrite (Array_from_units _ H1), (Array_from_units _ H2).
    rewrite !foldl_app, !hash_two_steps. do 2 f_equal. lia.
Qed.

Lemma seed_collisions_witness :
  createSeededRandom [65; 97] = createSeededRandom [66; 66] /\
  setCurrentSeed [] (startGame RealNumber (Some [65; 97]) [] comboSession)
  = setCurrentSeed [] (startGame RealNumber (Some [66; 66]) [] exhaustedSession).
Proof.
  destruct (seed_collisions RealNumber [] [] [65; 97] [66; 66] [] [] 65 97
              comboSession exhaustedSession) as (H1 & H2).
  split.
  - apply H2; repeat constructor.
  - apply H1; [reflexivity|discriminate|discriminate].
Defined.

(** ** Splitting a seed into characters *)

Lemma Array_from_cons (u v : Z) (rest : JSString) :
  Array_from (u :: v :: rest)
  = if isLeadSurrogate u && isTrailSurrogate v
    then [u; v] :: Array_from rest
    else [u] :: Array_from (v :: rest).
Proof. reflexivity. Qed.

Lemma Array_from_aux (n : nat) (seed : JSString) :
  (length seed <= n)%nat ->
  mjoin (Array_from seed) = seed /\
  Forall (fun char => (1 <= length char <= 2)%nat) (Array_from seed) /\
  (length (Array_from seed) <= length seed)%nat.
Proof.
  revert seed. induction n as [|n IH]; intros seed Hlen.
  - destruct seed; [|cbn in Hlen; lia]. cbn. repeat split; [constructor|lia].
  - destruct seed as [|u [|v rest]].
    + cbn. repeat split; [constructor|lia].
    + cbn. repeat split; [repeat constructor; cbn; lia|lia].
    + rewrite Array_from_cons. destruct (isLeadSurrogate u && isTrailSurrogate v).
      * destruct (IH rest ltac:(cbn in Hlen; lia)) as (H1 & H2 & H3).
        change (mjoin ([u; v] :: Array_from rest)) with ([u; v] ++ mjoin (Array_from rest)).
        rewrite H1. cbn [length] in *.
        repeat split; [constructor; [cbn; lia|assumption]|].
        apply le_n_S, le_S. exact H3.
      * destruct (IH (v :: rest) ltac:(cbn in *; lia)) as (H1 & H2 & H3).
        change (mjoin ([u] :: Array_from (v :: rest)))
          with ([u] ++ mjoin (Array_from (v :: rest))).
        rewrite H1. cbn [length] in *.
        repeat split; [constructor; [cbn; lia|assumption]|].
        apply le_n_S. exact H3.
Qed.

(** X15. Splitting a seed into characters loses nothing: the characters
    joined again are the seed, every character has one code unit or two, and
    the hash is folded over at most as many characters as the seed has code
    units. *)
Theorem Array_from_join (seed : JSString) :
  mjoin (Array_from seed) = seed /\
  Forall (fun char => (1 <= length char <= 2)%nat) (Array_from seed) /\
  (length (Array_from seed) <= length seed)%nat.
Proof. apply (Array_from_aux (length seed)). lia. Qed.

(** ** Restarting *)

Lemma onClick_seed (index : nat) (st : Session) :
  currentSeed (onClick index st) = currentSeed st /\
  seededRandom (onClick index st) = seededRandom st.
Proof.
  rewrite onClick_accepts. destruct (accepts index st) eqn:Ea; [|auto].
  apply accepts_true in Ea as (_ & Hcell & Hcard).
  rewrite (placeCard_effective index st Hcell Hcard).
  set (st2 := afterEvaluation index st).
  assert (H2 : currentSeed st2 = currentSeed st /\ seededRandom st2 = seededRandom st).
  { unfold st2, afterEvaluation.
    destruct (checkPatterns_fields (setGrid (<[index:=currentCard st]> (grid st)) st))
      as (_ & _ & _ & -> & ->). auto. }
  rewrite drawCard_eq. cbn [fst snd]. unfold checkGameOver. cbn zeta.
  destruct (_ || _); cbn; exact H2.
Qed.

Lemma clicks_seed (indices : list nat) (st : Session) :
  currentSeed (clicks indices st) = currentSeed st /\
  seededRandom (clicks indices st) = seededRandom st.
Proof.
  unfold clicks. revert st. induction indices as [|i indices IH]; intros st; cbn; [auto|].
  destruct (IH (onClick i st)) as (-> & ->). apply onClick_seed.
Qed.

(** X16. Play leaves the seed and the generator alone (the generator is
    called 51 times when the game starts and never after), so the restart
    button, which starts a game from the seed on display, brings back exactly
    the session the game began with. An empty seed input starts nothing, and
    a game started without a seed, or with an empty one, takes the generated
    UUID for its seed. *)
Theorem restart_replays (F : Number) (seed : option JSString) (uuid uuid' seedInput : JSString)
    (st0 : Session) (indices : list nat) :
  Forall (fun i => i < 9)%nat indices ->
  let start := startGame F seed uuid st0 in
  let played := clicks indices start in
  currentSeed played = currentSeed start /\
  seededRandom played = createSeededRandom (currentSeed start) + 51 /\
  (currentSeed start <> [] -> restart F uuid' played = start) /\
  startFromInput F [] uuid' played = played /\
  (seedInput <> [] ->
   startFromInput F seedInput uuid' played = startGame F (Some seedInput) uuid st0) /\
  (seed = None \/ seed = Some [] -> currentSeed start = uuid).
Proof.
  intros _ start played. unfold played, start. clear start played.
  destruct (clicks_seed indices (startGame F seed uuid st0)) as (Hs & Hr).
  split; [assumption|]. rewrite Hr. unfold restart. rewrite Hs.
  rewrite !startGame_sessionOfSeed.
  set (newSeed := match seed with Some (u :: s) => u :: s | _ => uuid end).
  cbn [sessionOfSeed currentSeed seededRandom].
  split; [reflexivity|]. split; [|split; [reflexivity|split]].
  - intros Hne. destruct newSeed; [contradiction|reflexivity].
  - intros Hne. destruct seedInput as [|u s]; [contradiction|].
    cbn [startFromInput]. rewrite !startGame_sessionOfSeed. reflexivity.
  - intros [->| ->]; reflexivity.
Qed.

Lemma restart_replays_witness :
  restart ZeroNumber [] (clicks [0; 4; 8]%nat (startGame ZeroNumber (Some seed_test1) [] comboSession))
  = startGame ZeroNumber (Some seed_test1) [] comboSession.
Proof.
  refine (proj1 (proj2 (proj2 (restart_replays ZeroNumber (Some seed_test1) [] [] [1]
                                 comboSession [0; 4; 8]%nat _))) _).
  - repeat constructor.
  - intros H. vm_compute in H. discriminate H.
Defined.

(** ** The card counter *)

Lemma inDeck_iff (s : Suit) (r : Rank) (d : list Card) :
  existsb (fun c => bool_decide (suit c = s) && bool_decide (rank c = r)) d = true
  <-> mkCard s r ∈ d.
Proof.
  rewrite existsb_exists. split.
  - intros ([s' r'] & Hin & H). apply andb_true_iff in H as [H1 H2].
    apply bool_decide_eq_true in H1, H2. cbn in *. subst. apply list_elem_of_In, Hin.
  - intros H. exists (mkCard s r). split; [apply list_elem_of_In, H|].
    cbn. rewrite !bool_decide_eq_true_2; reflexivity.
Qed.

Lemma isCurrentCard_iff (s : Suit) (r : Rank) (c : option Card) :
  bool_decide (suit <$> c = Some s) && bool_decide (rank <$> c = Some r) = true
  <-> c = Some (mkCard s r).
Proof.
  rewrite andb_true_iff, !bool_decide_eq_true. destruct c as [[s' r']|]; cbn; split.
  - intros [H1 H2]. congruence.
  - intros H. split; congruence.
  - intros [H _]. discriminate.
  - discriminate.
Qed.

Lemma isOnGrid_iff (s : Suit) (r : Rank) (g : list (option Card)) :
  existsb (fun c : option Card =>
             bool_decide (suit <$> c = Some s) && bool_decide (rank <$> c = Some r)) g = true
  <-> mkCard s r ∈ cardsOnGrid g.
Proof.
  rewrite existsb_exists. unfold cardsOnGrid. rewrite list_elem_of_omap. split.
  - intros (c & Hin & H). apply isCurrentCard_iff in H. exists c.
    split; [apply list_elem_of_In, Hin|assumption].
  - intros (c & Hin & H). exists c. split; [apply list_elem_of_In, Hin|].
    apply isCurrentCard_iff. assumption.
Qed.

Lemma shouldHideCard_iff (s : Suit) (r : Rank) (st : Session) :
  shouldHideCard s r st = true <->
  mkCard s r ∉ deck st \/ mkCard s r ∈ inHand st \/ mkCard s r ∈ cardsOnGrid (grid st).
Proof.
  unfold shouldHideCard. cbn zeta.
  rewrite !orb_true_iff, negb_true_iff, isCurrentCard_iff, isOnGrid_iff.
  rewrite <- not_true_iff_false, inDeck_iff. unfold inHand.
  destruct (currentCard st) as [c|]; cbn.
  - rewrite list_elem_of_singleton. split.
    + intros [[H|H]|H]; [auto|right; left; congruence|auto].
    + intros [H|[H|H]]; [auto|left; right; congruence|auto].
  - rewrite elem_of_nil. split.
    + intros [[H|H]|H]; [auto|discriminate|auto].
    + intros [H|[H|H]]; [auto|contradiction|auto].
Qed.

Lemma shouldHideCard_conserved (s : Suit) (r : Rank) (st : Session) :
  conserved st -> (shouldHideCard s r st = false <-> mkCard s r ∈ deck st).
Proof.
  intros [_ Hnd]. rewrite <- not_true_iff_false, shouldHideCard_iff.
  unfold cardsInPlay in Hnd. apply NoDup_app in Hnd as (_ & Hdisj & _).
  specialize (Hdisj (mkCard s r)). rewrite elem_of_app in Hdisj.
  destruct (decide (mkCard s r ∈ deck st)); tauto.
Qed.

Lemma counter_cards (st : Session) :
  CardCounter st
  = (fun c => (suit c, rank c, shouldHideCard (suit c) (rank c) st))
      <$> ([A; K; Q; J; R10; R9; R8; R7; R6; R5; R4; R3; R2] ≫= (fun r =>
             (fun s => mkCard s r) <$> [spade; heart; club; diamond])).
Proof. reflexivity. Qed.

Lemma counter_order_NoDup :
  NoDup ([A; K; Q; J; R10; R9; R8; R7; R6; R5; R4; R3; R2] ≫= (fun r =>
           (fun s => mkCard s r) <$> [spade; heart; club; diamond])).
Proof. apply (bool_decide_unpack _). vm_compute. exact I. Qed.

Lemma counter_order_all (c : Card) :
  c ∈ [A; K; Q; J; R10; R9; R8; R7; R6; R5; R4; R3; R2] ≫= (fun r =>
        (fun s => mkCard s r) <$> [spade; heart; club; diamond]).
Proof.
  destruct c as [s r]. apply list_elem_of_In. destruct s, r; vm_compute; tauto.
Qed.

Lemma length_filter_fmap {X Y} (f : X -> Y) (P : Y -> Prop) `{!forall y, Decision (P y)}
    (l : list X) :
  length (filter P (f <$> l)) = length (filter (fun x => P (f x)) l).
Proof.
  induction l as [|x l IH]; [reflexivity|]. cbn [fmap list_fmap].
  rewrite !filter_cons. destruct (decide (P (f x))); cbn; rewrite IH; reflexivity.
Qed.

Lemma counter_shown (st : Session) :
  conserved st ->
  length (filter (fun cell : Suit * Rank * bool => snd cell = false) (CardCounter st))
  = length (deck st).
Proof.
  intros Hc. rewrite counter_cards.
  rewrite (length_filter_fmap _ (fun cell : Suit * Rank * bool => snd cell = false)).
  cbn [snd]. apply Permutation_length, NoDup_Permutation.
  - apply NoDup_filter, counter_order_NoDup.
  - destruct Hc as [_ Hnd]. unfold cardsInPlay in Hnd.
    apply NoDup_app in Hnd as (H & _). exact H.
  - intros [s r]. rewrite list_elem_of_filter. cbn [suit rank].
    rewrite (shouldHideCard_conserved s r st Hc).
    pose proof (counter_order_all (mkCard s r)). tauto.
Qed.

(** X17. The counter blanks a card when it is not in the deck, when it is in
    hand, or when it is on the grid. As no card is in two places, the second
    and third tests add nothing: a card is shown exactly when it is in the
    deck, the cards shown are as many as the deck holds, and while a card is
    in hand that is one more than the remaining-card count beside it. *)
Theorem counter_shows_deck (s : Suit) (r : Rank) (st : Session) :
  (shouldHideCard s r st = true <->
   mkCard s r ∉ deck st \/ mkCard s r ∈ inHand st \/ mkCard s r ∈ cardsOnGrid (grid st)) /\
  (conserved st ->
   (shouldHideCard s r st = false <-> mkCard s r ∈ deck st) /\
   length (filter (fun cell : Suit * Rank * bool => snd cell = false) (CardCounter st))
   = length (deck st) /\
   (is_Some (currentCard st) ->
    Z.of_nat (length (filter (fun cell : Suit * Rank * bool => snd cell = false)
                             (CardCounter st)))
    = remainingCards st + 1)).
Proof.
  split; [apply shouldHideCard_iff|]. intros Hc.
  split; [apply shouldHideCard_conserved, Hc|].
  split; [apply counter_shown, Hc|].
  intros [c Hcard]. rewrite (counter_shown st Hc). unfold remainingCards.
  rewrite Hcard. lia.
Qed.

Lemma counter_shows_deck_witness :
  length (filter (fun cell : Suit * Rank * bool => snd cell = false) (CardCounter lastDrawSession))
  = 1%nat.
Proof.
  refine (proj1 (proj2 (proj2 (counter_shows_deck heart A lastDrawSession) _))).
  split; [reflexivity|]. apply (bool_decide_unpack _). vm_compute. exact I.
Defined.

(** ** Detection and the pass agree *)

(** X18. [hasValidPatterns] finds a pattern exactly when a pass of
    [checkPatterns] would change the session, the two being written
    separately in the source. *)
Theorem hasValidPatterns_iff_pass (st : Session) :
  hasValidPatterns st = false <-> checkPatterns st = st.
Proof.
  rewrite <- not_true_iff_false, hasValidPatterns_matches. split.
  - intros H. unfold checkPatterns. rewrite validPatternsOf_length.
    destruct (matches (grid st)); [reflexivity|exfalso; apply H; discriminate].
  - intros E Hne. destruct (checkPatterns_log st) as [(Hm & _)|(_ & e & Hl & _)];
      [contradiction|].
    rewrite E in Hl. apply (f_equal length) in Hl. cbn in Hl. lia.
Qed.

(** ** The grid after a placement *)

(** X19. In play, an accepted placement that completes no triple changes
    the one cell it is made on; one that completes a triple empties the cell
    of the placed card along with the rest of the matched triples, and every
    cell outside them is as it was. *)
Theorem placement_grid (index i : nat) (st : Session) :
  (index < length (grid st))%nat -> accepts index st = true -> matches (grid st) = [] ->
  let g1 := <[index := currentCard st]> (grid st) in
  let g' := grid (onClick index st) in
  (matches g1 = [] -> g' = g1) /\
  (matches g1 <> [] -> g' !! index = Some None) /\
  (inMatchedTriple g1 i -> g' !! i = Some None) /\
  (~ inMatchedTriple g1 i -> g' !! i = g1 !! i) /\
  length g' = length (grid st).
Proof.
  intros Hi Hacc Hq g1 g'. unfold g'. clear g'. rewrite onClick_accepts, Hacc.
  apply accepts_true in Hacc as (_ & Hcell & Hcard).
  rewrite (placeCard_grid index st Hcell Hcard). unfold afterEvaluation.
  set (st1 := setGrid (<[index:=currentCard st]> (grid st)) st).
  change (<[index:=currentCard st]> (grid st)) with (grid st1) in g1. subst g1.
  split; [|split; [|split; [|split]]].
  - intros Hm. unfold checkPatterns. rewrite validPatternsOf_length, Hm. reflexivity.
  - intros Hm. apply checkPatterns_cleared.
    destruct (matches (grid st1)) as [|m ms] eqn:E; [contradiction|].
    assert (Hin : m ∈ matches (grid st1)) by (rewrite E; left).
    exists m. split; [exact Hin|].
    exact (placed_matches_contain index (currentCard st) (grid st) m Hq Hin).
  - apply checkPatterns_cleared.
  - apply checkPatterns_kept.
  - rewrite checkPatterns_length. apply length_insert.
Qed.

Lemma placement_grid_witness :
  grid (onClick 4 comboSession) !! 4%nat = Some None /\
  grid (onClick 2 lastDrawSession) = <[2%nat := currentCard lastDrawSession]> (grid lastDrawSession).
Proof.
  split.
  - refine (proj1 (proj2 (placement_grid 4 0 comboSession _ _ _)) _);
      [cbn; lia|reflexivity|reflexivity|discriminate].
  - refine (proj1 (placement_grid 2 0 lastDrawSession _ _ _) _);
      [cbn; lia|reflexivity|reflexivity|reflexivity].
Defined.

(** ** The result window *)

Lemma onClick_modal (index : nat) (st : Session) :
  showResultModal st = gameOver st ->
  showResultModal (onClick index st) = gameOver (onClick index st).
Proof.
  intros Hinv. rewrite onClick_accepts. destruct (accepts index st) eqn:Ea; [|assumption].
  apply accepts_true in Ea as (Hg & Hcell & Hcard).
  rewrite (placeCard_effective index st Hcell Hcard).
  set (st2 := afterEvaluation index st).
  assert (H2 : showResultModal st2 = gameOver st2).
  { unfold st2, afterEvaluation, checkPatterns. cbn [grid setGrid].
    destruct (0 <? length (validPatternsOf (<[index:=currentCard st]> (grid st))))%nat;
      [|exact Hinv].
    unfold processPatterns. cbn zeta.
    destruct (2 <=? Z.of_nat (length (validPatternsOf (<[index:=currentCard st]> (grid st)))));
      exact Hinv. }
  rewrite drawCard_eq. cbn [fst snd]. unfold checkGameOver. cbn zeta.
  destruct (_ || _); [reflexivity|exact H2].
Qed.

(** X20. In every session reached by play the result window is open exactly
    when the game is over: both are set together by [checkGameOver] and
    reset together by [startGame], and nothing else touches them. *)
Theorem modal_iff_over (F : Number) (seed : option JSString) (uuid : JSString)
    (st0 : Session) (indices : list nat) :
  Forall (fun i => i < 9)%nat indices ->
  let played := clicks indices (startGame F seed uuid st0) in
  showResultModal played = gameOver played.
Proof.
  intros _ played. unfold played, clicks. clear played.
  assert (H0 : showResultModal (startGame F seed uuid st0) = gameOver (startGame F seed uuid st0))
    by (rewrite startGame_sessionOfSeed; reflexivity).
  revert H0. generalize (startGame F seed uuid st0).
  induction indices as [|i indices IH]; intros st Hst; cbn; [assumption|].
  apply IH, onClick_modal, Hst.
Qed.

Lemma modal_iff_over_witness :
  showResultModal (clicks [0; 1]%nat (startGame ZeroNumber None seed_test1 comboSession))
  = gameOver (clicks [0; 1]%nat (startGame ZeroNumber None seed_test1 comboSession)).
Proof.
  apply (modal_iff_over ZeroNumber None seed_test1 comboSession [0; 1]%nat).
  repeat constructor.
Defined.

(** ** Generators of neighbouring hashes *)

(** X21. The generator keeps no state but the hash it counts up: after k
    calls the generator made from hash h is the generator made from h + k, so
    that seeds whose hashes differ by k give the same sequence of outputs k
    calls apart. *)
Theorem generator_shift (F : Number) (k n : nat) (hash : Z) :
  outputs F (generator F) (k + n) hash
  = (fst (outputs F (generator F) k hash)
       ++ fst (outputs F (generator F) n (hash + Z.of_nat k)),
     snd (outputs F (generator F) n (hash + Z.of_nat k))) /\
  snd (outputs F (generator F) k hash) = hash + Z.of_nat k.
Proof.
  rewrite !generator_outputs. cbn [fst snd]. split; [|reflexivity].
  rewrite seq_app, fmap_app. f_equal; [|lia]. f_equal. cbn [Nat.add].
  replace (seq k n) with (Nat.add k <$> seq 0 n) by (rewrite fmap_add_seq; f_equal; lia).
  rewrite <- list_fmap_compose.
  apply list_fmap_ext. intros _ j _. cbn. f_equal. lia.
Qed.
